(** * The json-server [Service]: a shallow embedding of [service.ts]

    The document store, the relation helpers ([embed], [nullifyForeignKey],
    [deleteDependents]), identifier normalisation ([fixItemsIds],
    [fixAllItemsIds]) and the methods of the class [Service] are written
    here as Rocq functions, one per source function and under the source's
    name.  With them come the type guards of [service.ts], the query that
    the [GET /:name] handler of [app.ts] builds for [find], and the class
    [Observer] of [observer.ts] with the callbacks the command-line
    program gives it.

    - A record ([Item = Record<string, unknown>]) is a finite map from
      field names to JSON values.  A field that is absent reads as
      [undefined], which is [None] here; JSON itself has no [undefined].
    - The store ([Data]) is kept as the list of its entries in the order
      [Object.entries] walks them: that order decides which record receives
      which generated identifier.  The store is a plain object: a read
      [db.data[name]] that finds no own key goes on to the members every
      object inherits ([constructor], [toString], ...), and [read_data]
      follows it there.
    - Methods that mutate the store take the service state and give back
      the new one.  [db.write()] hands the store to the persistence
      adapter and changes nothing in memory, so it leaves no trace here;
      a write that fails is the adapter's matter.
    - A call that raises a [TypeError] in JavaScript ends in [Throw]. *)

From Stdlib Require Import Strings.Ascii Strings.String Strings.Byte.
From stdpp Require Import gmap strings list fin_maps pretty.

Local Open Scope string_scope.

(** ** Completions: a normal result or a thrown exception *)

Inductive completion (A : Type) : Type :=
| Normal (a : A)
| Throw.
Arguments Normal {A} a.
Arguments Throw {A}.

Global Instance completion_ret : MRet completion := λ A a, Normal a.
Global Instance completion_bind : MBind completion := λ A B f m,
  match m with
  | Normal a => f a
  | Throw => Throw
  end.

(** [xs.forEach(x => { acc = f(acc, x) })], where [f] may throw. *)
Fixpoint forEachM {A S : Type} (f : S → A → completion S) (xs : list A) (acc : S)
  : completion S :=
  match xs with
  | [] => Normal acc
  | x :: xs' => acc' ← f acc x; forEachM f xs' acc'
  end.

(** [string | string[]], the type of [_embed] and of [dependent]. *)
Inductive strings_arg : Type :=
| One (s : string)
| Many (l : list string).

(** [ensureArray(arg = [])]: the default applies when [arg] is undefined. *)
Definition ensureArray (arg : option strings_arg) : list string :=
  match arg with
  | None => []
  | Some (Many l) => l
  | Some (One s) => [s]
  end.

(** ** Filter conditions *)

(** [enum Condition] and [isCondition].  They are declared in the
    source; no function of the service calls them. *)
Module Condition.

Inductive t : Type := lt | lte | gt | gte | ne | default.

Definition to_string (c : t) : string :=
  match c with
  | lt => "lt" | lte => "lte" | gt => "gt" | gte => "gte" | ne => "ne"
  | default => ""
  end.

(** [Object.values(Condition)] *)
Definition values : list string :=
  to_string <$> [lt; lte; gt; gte; ne; default].

End Condition.

Definition isCondition (value : string) : bool :=
  bool_decide (value ∈ Condition.values).

(** ** Identifiers: [randomBytes(2).toString('hex')] *)

Definition hex_digit (d : N) : ascii :=
  nth (N.to_nat d)
    ["0"; "1"; "2"; "3"; "4"; "5"; "6"; "7";
     "8"; "9"; "a"; "b"; "c"; "d"; "e"; "f"]%char "0"%char.

Definition byte_hex (b : byte) : string :=
  String (hex_digit (Byte.to_N b / 16))
    (String (hex_digit (Byte.to_N b mod 16)) EmptyString).

(** ** The members every plain object inherits *)

(** [Object.getOwnPropertyNames(Object.prototype)] *)
Definition object_prototype_members : list string :=
  ["constructor"; "__defineGetter__"; "__defineSetter__"; "hasOwnProperty";
   "__lookupGetter__"; "__lookupSetter__"; "isPrototypeOf";
   "propertyIsEnumerable"; "toString"; "valueOf"; "__proto__";
   "toLocaleString"].

(** ** What the service takes from its platform *)

Class Runtime : Type := {
  (** JavaScript numbers, their [===] and [Number.prototype.toString]. *)
  number : Type;
  number_eqb : number → number → bool;
  number_toString : number → string;
  (** [inflection.singularize], from the [inflection] package. *)
  singularize : string → string;
  (** The two octets [randomBytes(2)] returns at its [n]-th call. *)
  randomBytes2 : nat → byte * byte
}.

(** ** Data model *)

#[warnings="-register-all"] Inductive value `{Runtime} : Type :=
| VNull
| VBool (b : bool)
| VNum (n : number)
| VStr (s : string)
| VArr (l : list value)
| VObj (o : gmap string value).

(** [type Item = Record<string, unknown>] *)
Abbreviation item := (gmap string value).

(** A value of [Data]: [Item[] | Item]. *)
Inductive collection `{Runtime} : Type :=
| CList (items : list item)
| CSingle (o : item).

(** [type Data = Record<string, Item[] | Item>], in enumeration order. *)
Abbreviation store := (list (string * collection)).

Section Service.
Context `{Runtime}.

(** [a === b] on the results of two property reads.  Two objects or two
    arrays are equal only when they are the same object; the store is a
    JSON tree and holds no object in two places, so the values read from
    two different fields are never the same object. *)
Definition strict_eq (a b : option value) : bool :=
  match a, b with
  | None, None => true
  | Some VNull, Some VNull => true
  | Some (VBool x), Some (VBool y) => Bool.eqb x y
  | Some (VNum x), Some (VNum y) => number_eqb x y
  | Some (VStr x), Some (VStr y) => String.eqb x y
  | _, _ => false
  end.

(** [type PaginatedItems] *)
Record PaginatedItems : Type := {
  first : number;
  prev : option number;
  next : option number;
  last : number;
  pages : number;
  items : number;
  data : list item
}.

(** What [find] may return: [Item[] | PaginatedItems | Item | undefined],
    and, past what its type says, the inherited member that a read of
    the store gave it. *)
Inductive find_result : Type :=
| FItems (l : list item)
| FPaginated (p : PaginatedItems)
| FItem (o : item)
| FUndefined
| FInherited (member : string).

(** A query parameter other than [_embed]: a string, a list of strings,
    or a number once [app.ts] has parsed it. *)
Inductive qvalue : Type :=
| QStr (s : string)
| QStrs (l : list string)
| QNum (n : number).

(** The [query] argument of [find].  [_embed] is kept at the type
    [ensureArray] takes it at. *)
Record query : Type := {
  q_embed : option strings_arg;
  q_params : gmap string qvalue
}.

(** The own property [name] of the store, if it has one: what
    [db.data[name]] gives when [name] is an own key. *)
Fixpoint get (name : string) (d : store) : option collection :=
  match d with
  | [] => None
  | (key, c) :: rest => if decide (key = name) then Some c else get name rest
  end.

(** What a read of the store gives: a collection of its own, or the
    member of [Object.prototype] of that name, which is a function or,
    for [__proto__], the prototype itself; never an array, never falsy. *)
Inductive stored : Type :=
| Own (c : collection)
| Inherited (member : string).

(** [db.data[name]]: the own key first, then the prototype;
    [undefined] when neither has the name. *)
Definition read_data (name : string) (d : store) : option stored :=
  match get name d with
  | Some c => Some (Own c)
  | None =>
      if bool_decide (name ∈ object_prototype_members)
      then Some (Inherited name) else None
  end.

(** The array held at [db.data[name]] is changed in place: the entry
    keeps its place in the store and now holds [c]. *)
Fixpoint put (name : string) (c : collection) (d : store) : store :=
  match d with
  | [] => []
  | (key, c0) :: rest =>
      if decide (key = name) then (key, c) :: rest
      else (key, c0) :: put name c rest
  end.

(** [`${inflection.singularize(name)}Id`] *)
Definition foreignKey (name : string) : string := singularize name +:+ "Id".

(** Deciding whether a property read gave [null], or a given string. *)
Global Instance is_null_dec (o : option value) : Decision (o = Some VNull).
Proof.
  refine (match o with Some VNull => left _ | _ => right _ end);
    congruence.
Defined.

Global Instance is_str_dec (o : option value) (s : string) :
  Decision (o = Some (VStr s)).
Proof.
  refine (match o with
          | Some (VStr s') => cast_if (decide (s' = s))
          | _ => right _
          end); congruence.
Defined.

(** Invariant I2 of the data model, for one record: its [id] is a
    string and is not empty. *)
Definition has_string_id (it : item) : Prop :=
  ∃ s, it !! "id" = Some (VStr s) ∧ s ≠ "".

(** ** [embed] *)

(** [relatedData] is whatever the read gives.  Nothing there: the record
    goes back as it is.  A list: it is filtered.  Anything else, a
    single record or an inherited member, has no [filter] to call. *)
Definition embed (d : store) (name : string) (it : item) (related : string)
  : completion item :=
  match read_data related d with
  | None => Normal it
  | Some (Own (CList relatedData)) =>
      let relatedItems :=
        List.filter
          (λ relatedItem, strict_eq (relatedItem !! foreignKey name) (it !! "id"))
          relatedData in
      Normal (<[related := VArr (VObj <$> relatedItems)]> it)
  | Some (Own (CSingle _)) | Some (Inherited _) =>
      Throw (* relatedData.filter is not a function *)
  end.

(** ** [nullifyForeignKey] and [deleteDependents] *)

Definition nullify_item (fk id : string) (it : item) : item :=
  if strict_eq (it !! fk) (Some (VStr id)) then <[fk := VNull]> it else it.

Definition nullifyForeignKey (d : store) (name id : string) : store :=
  (λ '(key, c),
     if decide (key = name) then (key, c)
     else match c with
          | CList its => (key, CList (nullify_item (foreignKey name) id <$> its))
          | CSingle _ => (key, c)
          end) <$> d.

Definition deleteDependents (d : store) (name : string) (dependents : list string)
  : store :=
  (λ '(key, c),
     if decide (key ∈ dependents) then
       match c with
       | CList its =>
           (key, CList (List.filter
                          (λ it, negb (strict_eq (it !! foreignKey name) (Some VNull)))
                          its))
       | CSingle _ => (key, c)
       end
     else (key, c)) <$> d.

(** ** [randomId], [fixItemsIds], [fixAllItemsIds] *)

Definition randomId (n : nat) : string :=
  let '(b0, b1) := randomBytes2 n in byte_hex b0 +:+ byte_hex b1.

(** One turn of the loop of [fixItemsIds]; [n] counts the identifiers
    drawn so far. *)
Definition fixItemId (it : item) (n : nat) : item * nat :=
  let it1 :=
    match it !! "id" with
    | Some (VNum x) => <["id" := VStr (number_toString x)]> it
    | _ => it
    end in
  match it1 !! "id" with
  | None => (<["id" := VStr (randomId n)]> it1, S n)
  | Some _ => (it1, n)
  end.

Fixpoint fixItemsIds (its : list item) (n : nat) : list item * nat :=
  match its with
  | [] => ([], n)
  | it :: rest =>
      let '(it', n1) := fixItemId it n in
      let '(rest', n2) := fixItemsIds rest n1 in
      (it' :: rest', n2)
  end.

Fixpoint fixAllItemsIds (d : store) (n : nat) : store * nat :=
  match d with
  | [] => ([], n)
  | (key, CList its) :: rest =>
      let '(its', n1) := fixItemsIds its n in
      let '(rest', n2) := fixAllItemsIds rest n1 in
      ((key, CList its') :: rest', n2)
  | (key, CSingle o) :: rest =>
      let '(rest', n2) := fixAllItemsIds rest n in
      ((key, CSingle o) :: rest', n2)
  end.

(** What normalisation makes of one record, [it'] from [it], when [n]
    identifiers were drawn before: a numeric [id] is replaced by its
    string, a missing [id] by a generated one, any other [id] and every
    other field are kept. *)
Definition normalised (n : nat) (it it' : item) : Prop :=
  (∀ k, k ≠ "id" → it' !! k = it !! k) ∧
  match it !! "id" with
  | Some (VNum x) => it' !! "id" = Some (VStr (number_toString x))
  | None => ∃ m, (n ≤ m)%nat ∧ it' !! "id" = Some (VStr (randomId m)) ∧
                 String.length (randomId m) = 4
  | Some v => it' !! "id" = Some v
  end.

(** ** The class [Service] *)

(** The private field [#db], and how many identifiers were drawn. *)
Record service : Type := {
  db : store;
  draws : nat
}.

(** [new Service(db)], with [n] identifiers drawn before the call. *)
Definition constructor (d : store) (n : nat) : service :=
  let '(d', n') := fixAllItemsIds d n in {| db := d'; draws := n' |}.

Definition has (s : service) (name : string) : bool :=
  bool_decide (is_Some (get name (db s))).

(** [item['id'] === id] for a string [id]. *)
Definition has_id (id : string) (it : item) : Prop :=
  strict_eq (it !! "id") (Some (VStr id)) = true.

Global Instance has_id_dec id it : Decision (has_id id it) :=
  decide (strict_eq (it !! "id") (Some (VStr id)) = true).

(** [items.find(item => item['id'] === id)] with the index [indexOf]
    then gives for the object found: the first match and its position. *)
Definition find_id (id : string) (its : list item) : option (nat * item) :=
  list_find (has_id id) its.

Definition findById (s : service) (name id : string) (_embed : option strings_arg)
  : completion (option item) :=
  match read_data name (db s) with
  | Some (Own (CList its)) =>
      forEachM
        (λ (acc : option item) related,
           match acc with
           | Some it => it' ← embed (db s) name it related; Normal (Some it')
           | None => Normal None
           end)
        (ensureArray _embed) (snd <$> find_id id its)
  | _ => Normal None
  end.

Definition find (s : service) (name : string) (q : query)
  : completion find_result :=
  match read_data name (db s) with
  | None => Normal FUndefined
  | Some (Inherited member) => Normal (FInherited member)
  | Some (Own (CSingle o)) => Normal (FItem o)
  | Some (Own (CList its)) =>
      its' ← forEachM
        (λ acc related, mapM (λ it, embed (db s) name it related) acc)
        (ensureArray (q_embed q)) its;
      Normal (FItems its')
  end.

Definition create (s : service) (name : string) (data : item)
  : option item * service :=
  match read_data name (db s) with
  | Some (Own (CList its)) =>
      let it := data ∪ {[ "id" := VStr (randomId (draws s)) ]} in
      (Some it, {| db := put name (CList (its ++ [it])) (db s);
                   draws := S (draws s) |})
  | _ => (None, s)
  end.

Definition updateById (s : service) (name id : string) (body : item)
  : option item * service :=
  match read_data name (db s) with
  | Some (Own (CList its)) =>
      match find_id id its with
      | None => (None, s)
      | Some (index, it) =>
          let nextItem := <["id" := VStr id]> (body ∪ it) in
          (Some nextItem,
           {| db := put name (CList (<[index := nextItem]> its)) (db s);
              draws := draws s |})
      end
  | _ => (None, s)
  end.

Definition destroyById (s : service) (name id : string)
    (dependent : option strings_arg) : option item * service :=
  match read_data name (db s) with
  | Some (Own (CList its)) =>
      match find_id id its with
      | None => (None, s)
      | Some (index, it) =>
          let d1 := put name (CList (delete index its)) (db s) in
          let d2 := nullifyForeignKey d1 name id in
          let d3 := deleteDependents d2 name (ensureArray dependent) in
          (Some it, {| db := d3; draws := draws s |})
      end
  | _ => (None, s)
  end.

End Service.

Arguments FItems {_} l.
Arguments FPaginated {_} p.
Arguments FItem {_} o.
Arguments FUndefined {_}.
Arguments FInherited {_} member.

(** ** Type guards, and notions the further properties are stated with *)

Section Guards.
Context `{Runtime}.

(** [isItem]: [typeof obj === 'object' && obj !== null].  Objects and
    arrays pass; [null], [undefined] and the primitive values do not. *)
Definition isItem (obj : option value) : bool :=
  match obj with
  | Some (VObj _) | Some (VArr _) => true
  | _ => false
  end.

(** [Array.isArray(value) && value.every(isItem)] *)
Definition isItemArray (v : value) : bool :=
  match v with
  | VArr l => forallb (λ x, isItem (Some x)) l
  | _ => false
  end.

(** [isData]: [Object.values] of an object are its field values, of an
    array its elements. *)
Definition isData (obj : option value) : bool :=
  match obj with
  | Some (VObj o) => bool_decide (map_Forall (λ _ v, isItemArray v = true) o)
  | Some (VArr l) => forallb isItemArray l
  | _ => false
  end.

(** The store as the JSON value it is loaded from and written as. *)
Definition collection_json (c : collection) : value :=
  match c with
  | CList its => VArr (VObj <$> its)
  | CSingle o => VObj o
  end.

Definition store_json (d : store) : value :=
  VObj (list_to_map (prod_map id collection_json <$> d)).

(** [db.data[related]] is there and is not an array: a single record
    of the store, or an inherited member. *)
Definition not_a_list (d : store) (related : string) : bool :=
  match read_data related d with
  | Some (Own (CList _)) | None => false
  | Some (Own (CSingle _)) | Some (Inherited _) => true
  end.

(** The names of the store, in order, each with whether it is a list. *)
Definition shape (d : store) : list (string * bool) :=
  (λ '(key, c), (key, match c with CList _ => true | CSingle _ => false end))
    <$> d.

(** Every record of every list collection has an [id] that is not
    [undefined]. *)
Definition ids_defined (d : store) : Prop :=
  ∀ name its, get name d = Some (CList its) →
    Forall (λ it : item, is_Some (it !! "id")) its.

(** How many records of the list collections have no [id]. *)
Definition missing_ids (d : store) : nat :=
  sum_list ((λ '(_, c),
               match c with
               | CList its =>
                   length (filter (λ it : item, it !! "id" = None) its)
               | CSingle _ => 0
               end) <$> d).

End Guards.

(** The characters [Buffer.toString('hex')] writes. *)
Definition is_hex_char (c : ascii) : bool :=
  bool_decide (c ∈ list_ascii_of_string "0123456789abcdef").

(** ** The query that [app.ts] hands to [find] *)

Section App.
Context `{Runtime}.

(** [parseInt] and [Number.isNaN]. *)
Variable parseInt : string → number.
Variable isNaN : number → bool.

Definition numeric_params : list string :=
  ["_start"; "_end"; "_limit"; "_page"; "_per_page"].

(** One entry of [req.query] through the [map] and the [filter] of the
    [GET /:name] handler: [None] when the entry is filtered out. *)
Definition parse_param (key : string) (value : strings_arg) : option qvalue :=
  match value with
  | One s =>
      if bool_decide (key ∈ numeric_params) then
        if isNaN (parseInt s) then None else Some (QNum (parseInt s))
      else Some (QStr s)
  | Many l => Some (QStrs l)
  end.

(** [Object.fromEntries(Object.entries(req.query).map(...).filter(...))] *)
Definition parse_query (raw : gmap string strings_arg) : query :=
  {| q_embed := raw !! "_embed"; q_params := map_imap parse_param raw |}.

End App.

(** ** [Observer] *)

Section Observer.

(** [T] is what the adapter stores, [F] the state of the adapter, [C]
    the state the callbacks work on. *)
Context {T F C : Type}.

(** [Adapter<T>]: [read] and [write], which may fail. *)
Record adapter : Type := {
  adapter_read : F → completion (option T) * F;
  adapter_write : T → F → completion unit * F
}.

(** The class [Observer<T>]: its adapter and its four callbacks. *)
Record observer : Type := {
  obs_adapter : adapter;
  onReadStart : C → C;
  onReadEnd : option T → C → C;
  onWriteStart : C → C;
  onWriteEnd : C → C
}.

(** [new Observer(adapter)]: the callbacks it starts with only return. *)
Definition new_observer (a : adapter) : observer :=
  {| obs_adapter := a;
     onReadStart := id; onReadEnd := λ _, id;
     onWriteStart := id; onWriteEnd := id |}.

(** [Observer.read]: a rejected [adapter.read()] ends the call before
    [onReadEnd]. *)
Definition observer_read (o : observer) (c : C) (f : F)
  : completion (option T) * (C * F) :=
  let c1 := onReadStart o c in
  match adapter_read (obs_adapter o) f with
  | (Normal data, f') => (Normal data, (onReadEnd o data c1, f'))
  | (Throw, f') => (Throw, (c1, f'))
  end.

(** [Observer.write] *)
Definition observer_write (o : observer) (arg : T) (c : C) (f : F)
  : completion unit * (C * F) :=
  let c1 := onWriteStart o c in
  match adapter_write (obs_adapter o) arg f with
  | (Normal _, f') => (Normal (), (onWriteEnd o c1, f'))
  | (Throw, f') => (Throw, (c1, f'))
  end.

End Observer.

Arguments adapter : clear implicits.
Arguments observer : clear implicits.

(** The observer of the command-line program: its write callbacks raise
    and lower the flag [writing]; its read callbacks leave it alone. *)
Definition watching_observer {T F : Type} (a : adapter T F) : observer T F bool :=
  {| obs_adapter := a;
     onReadStart := id; onReadEnd := λ _, id;
     onWriteStart := λ _, true; onWriteEnd := λ _, false |}.

(** The [change] handler of the file watcher reads the file again only
    when the flag is down. *)
Definition reads_on_change (writing : bool) : bool := negb writing.

(** ** A runtime to evaluate in, and the data of [service.test.ts] *)

(** Drops one final [s]: what [inflection.singularize] gives for the
    regular plurals used below (["posts"], ["comments"]). *)
Fixpoint singular_s (s : string) : string :=
  match s with
  | EmptyString => EmptyString
  | String c rest =>
      match c, rest with
      | "s"%char, EmptyString => EmptyString
      | _, _ => String c (singular_s rest)
      end
  end.

(** Integers for the numbers, printed in decimal; a random source that
    yields the octets [c0 de] at every call. *)
Definition test_runtime : Runtime := {|
  number := Z;
  number_eqb := Z.eqb;
  number_toString := pretty;
  singularize := singular_s;
  randomBytes2 := λ _, (xc0, xde)
|}.

Section TestData.
#[local] Existing Instance test_runtime.

(** [{ id, views }] *)
Definition short_post (id : string) (views : Z) : item :=
  {[ "id" := VStr id; "views" := VNum views ]}.

Definition posts3 : list item :=
  [short_post "1" 100; short_post "2" 200; short_post "3" 300].

Definition comment1 : item :=
  {[ "id" := VStr "1"; "title" := VStr "a"; "postId" := VStr "1" ]}.

Definition obj : item := {[ "f1" := VStr "foo" ]}.

(** Three posts with views 100, 200 and 300, one comment on the first
    post, and a single record. *)
Definition views_store : store :=
  [("posts", CList posts3); ("comments", CList [comment1]); ("object", CSingle obj)].

Definition views_service : service := constructor views_store 0.

(** Two posts stored in descending order of [views]. *)
Definition unsorted_service : service :=
  constructor [("posts", CList [short_post "1" 200; short_post "2" 100])] 0.

(** Posts loaded with [id: null], [id: ''], no [id] twice, and [id: 7]. *)
Definition loose_ids_store : store :=
  [("posts", CList [ {[ "id" := VNull ]}; {[ "id" := VStr "" ]};
                     {[ "title" := VStr "a" ]}; {[ "title" := VStr "b" ]};
                     {[ "id" := VNum 7%Z ]} ])].

(** A comment whose [postId] was stored as the number 1. *)
Definition numeric_fk_comment : item :=
  {[ "id" := VStr "1"; "postId" := VNum 1%Z ]}.

Definition numeric_fk_store : store :=
  [("posts", CList [ {[ "id" := VNum 1%Z ]} ]);
   ("comments", CList [ numeric_fk_comment;
                        {[ "id" := VStr "2"; "postId" := VStr "1" ]};
                        {[ "id" := VStr "3"; "postId" := VNull ]} ])].

(** [{ views_lt: '300' }] *)
Definition views_lt_query : query :=
  {| q_embed := None; q_params := {[ "views_lt" := QStr "300" ]} |}.

(** [{ _page: 1, _per_page: 2 }] *)
Definition page_query : query :=
  {| q_embed := None;
     q_params := {[ "_page" := QNum 1%Z; "_per_page" := QNum 2%Z ]} |}.

(** What [service.test.ts] expects for [page_query] on the three posts. *)
Definition first_page : PaginatedItems :=
  {| first := 1%Z; prev := None; next := Some 2%Z; last := 2%Z;
     pages := 2%Z; items := 3%Z;
     data := [short_post "1" 100; short_post "2" 200] |}.

(** [{ _sort: 'views' }] *)
Definition sort_query : query :=
  {| q_embed := None; q_params := {[ "_sort" := QStr "views" ]} |}.

(** Request bodies: one without an [id], two that carry one. *)
Definition new_post : item := {[ "title" := VStr "x" ]}.

Definition body_with_id : item :=
  {[ "id" := VStr "abc"; "title" := VStr "x" ]}.

Definition update_body : item :=
  {[ "id" := VStr "other"; "title" := VStr "y" ]}.

(** A body whose [id] is the one of the first post. *)
Definition colliding_post : item :=
  {[ "id" := VStr "1"; "title" := VStr "dup" ]}.

(** Comments on the second post, on no post ([postId: null]), and the
    store that holds them with the comment on the first post. *)
Definition comment2 : item := {[ "id" := VStr "2"; "postId" := VStr "2" ]}.

Definition orphan_comment : item := {[ "id" := VStr "3"; "postId" := VNull ]}.

Definition cascade_service : service :=
  {| db := [("posts", CList posts3);
            ("comments", CList [comment1; comment2; orphan_comment]);
            ("object", CSingle obj)];
     draws := 0 |}.

(** An adapter over a file that cannot be written. *)
Definition read_only_adapter : adapter Z unit :=
  {| adapter_read := λ f, (Normal (Some 0%Z), f);
     adapter_write := λ _ f, (Throw, f) |}.

End TestData.

(** * Properties *)

Section Properties.
Context `{Runtime}.

Implicit Types (d : store) (s : service) (it : item) (its : list item).
Implicit Types (o : option value) (name key id related : string).

(** ** Strict equality *)

Lemma strict_eq_str o id : strict_eq o (Some (VStr id)) = true ↔ o = Some (VStr id).
Proof.
  destruct o as [[]|]; simpl; try (split; [discriminate | congruence]).
  rewrite String.eqb_eq. split; congruence.
Qed.

Lemma strict_eq_null o : strict_eq o (Some VNull) = true ↔ o = Some VNull.
Proof. destruct o as [[]|]; simpl; split; congruence. Qed.

Lemma strict_eq_num_str x id : strict_eq (Some (VNum x)) (Some (VStr id)) = false.
Proof. reflexivity. Qed.

Lemma has_id_iff id it : has_id id it ↔ it !! "id" = Some (VStr id).
Proof. apply strict_eq_str. Qed.

Lemma nullify_item_decide fk id it :
  nullify_item fk id it =
    if decide (it !! fk = Some (VStr id)) then <[fk := VNull]> it else it.
Proof.
  unfold nullify_item. destruct (decide (it !! fk = Some (VStr id))) as [E|E].
  - apply strict_eq_str in E. by rewrite E.
  - destruct (strict_eq (it !! fk) (Some (VStr id))) eqn:E'; [|done].
    by apply strict_eq_str in E'.
Qed.

Lemma filter_not_null fk its :
  List.filter (λ it, negb (strict_eq (it !! fk) (Some VNull))) its =
    filter (λ it, it !! fk ≠ Some VNull) its.
Proof.
  induction its as [|it its IH]; [done|]. simpl. rewrite filter_cons, IH.
  destruct (decide (it !! fk = Some VNull)) as [E|E].
  - rewrite decide_False by tauto.
    apply strict_eq_null in E. by rewrite E.
  - rewrite decide_True by done.
    destruct (strict_eq (it !! fk) (Some VNull)) eqn:E'; [|done].
    by apply strict_eq_null in E'.
Qed.

(** ** Looking up in the store *)

Lemma get_put_eq name (c c0 : collection) d :
  get name d = Some c0 → get name (put name c d) = Some c.
Proof.
  induction d as [|[key c1] d IH]; simpl; [done|].
  destruct (decide (key = name)); simpl.
  - by rewrite decide_True.
  - by rewrite decide_False.
Qed.

Lemma get_put_ne name key (c : collection) d :
  key ≠ name → get key (put name c d) = get key d.
Proof.
  intros Hne. induction d as [|[k c1] d IH]; simpl; [done|].
  destruct (decide (k = name)) as [->|]; simpl; case_decide; congruence.
Qed.

Lemma has_false s name : has s name = false ↔ get name (db s) = None.
Proof.
  unfold has. rewrite bool_decide_eq_false, eq_None_not_Some. done.
Qed.

Lemma read_data_own name d (c : collection) :
  get name d = Some c → read_data name d = Some (Own c).
Proof. intros Hg. unfold read_data. by rewrite Hg. Qed.

Lemma read_data_Own name d (c : collection) :
  read_data name d = Some (Own c) ↔ get name d = Some c.
Proof.
  unfold read_data. destruct (get name d) as [c'|]; [|case_bool_decide];
    split; congruence.
Qed.

Lemma read_data_Inherited name d member :
  read_data name d = Some (Inherited member) ↔
    get name d = None ∧ name ∈ object_prototype_members ∧ member = name.
Proof.
  unfold read_data. destruct (get name d) as [c'|]; [|case_bool_decide].
  - split; [done|]. by intros [? _].
  - split; [by intros [= <-]|]. by intros (_ & _ & ->).
  - split; [done|]. by intros (_ & ? & _).
Qed.


Lemma get_nullifyForeignKey d name id key :
  get key (nullifyForeignKey d name id) =
    (λ c, if decide (key = name) then c
          else match c with
               | CList its => CList (nullify_item (foreignKey name) id <$> its)
               | CSingle _ => c
               end) <$> get key d.
Proof.
  unfold nullifyForeignKey.
  induction d as [|[k c] d IH]; simpl; [done|].
  destruct (decide (k = name)) as [->|Hk]; simpl.
  - destruct (decide (name = key)) as [->|Hne]; simpl; [|apply IH].
    by rewrite decide_True.
  - destruct c; simpl; destruct (decide (k = key)) as [->|Hne]; simpl;
      try apply IH; by rewrite decide_False.
Qed.

Lemma get_deleteDependents d name deps key :
  get key (deleteDependents d name deps) =
    (λ c, if decide (key ∈ deps) then
            match c with
            | CList its =>
                CList (filter (λ it, it !! foreignKey name ≠ Some VNull) its)
            | CSingle _ => c
            end
          else c) <$> get key d.
Proof.
  unfold deleteDependents.
  induction d as [|[k c] d IH]; simpl; [done|].
  destruct (decide (k ∈ deps)) as [Hk|Hk]; [destruct c|]; simpl;
    destruct (decide (k = key)) as [->|Hne]; simpl; try apply IH.
  - by rewrite decide_True, filter_not_null.
  - by rewrite decide_True.
  - by rewrite decide_False.
Qed.

(** ** Generated identifiers *)

Lemma randomId_length n : String.length (randomId n) = 4.
Proof. unfold randomId. by destruct (randomBytes2 n). Qed.

Lemma randomId_nonempty n : randomId n ≠ "".
Proof. intros E. pose proof (randomId_length n) as L. by rewrite E in L. Qed.

(** The foreign key ends in a capital [I] and a [d]: it is never [id]. *)
Lemma foreignKey_not_id name : foreignKey name ≠ "id".
Proof.
  unfold foreignKey.
  destruct (singularize name) as [|c [|c' [|c'' r]]]; simpl; discriminate.
Qed.

(** ** Finding a record by its identifier *)

Lemma find_id_Some id its i it :
  find_id id its = Some (i, it) ↔
    its !! i = Some it ∧ it !! "id" = Some (VStr id) ∧
    ∀ j r, its !! j = Some r → j < i → r !! "id" ≠ Some (VStr id).
Proof.
  unfold find_id. rewrite list_find_Some, has_id_iff.
  by setoid_rewrite has_id_iff.
Qed.

Lemma find_id_present id its j it0 :
  its !! j = Some it0 → it0 !! "id" = Some (VStr id) →
  ∃ i it, find_id id its = Some (i, it).
Proof.
  intros Hj Hid.
  destruct (list_find_elem_of (has_id id) its it0) as [[i it] E].
  - by eapply list_elem_of_lookup_2.
  - by apply has_id_iff.
  - by exists i, it.
Qed.

(** ** Names that are not keys of the store *)

(** The foreign key ends in a capital [I] and a [d], which no inherited
    member does: reading it from a record, like reading [id], never
    reaches the prototype. *)
Lemma foreignKey_not_inherited name :
  (foreignKey name ∉ object_prototype_members) ∧
  ("id" ∉ object_prototype_members).
Proof.
  split; [|compute_done].
  unfold foreignKey, object_prototype_members.
  generalize (singularize name). intros prefix Hin.
  repeat (apply elem_of_cons in Hin as [Hin|Hin];
          [ revert Hin;
            repeat (destruct prefix as [|? prefix]; [discriminate|];
                    simpl; intros [= _ Hin]; revert Hin);
            destruct prefix; discriminate
          | ]).
  by apply elem_of_nil in Hin.
Qed.

(** X29.  When [name] is not an own key of the store, [findById],
    [create], [updateById] and [destroyById] return [undefined], and
    the three that mutate hand back the state they were given.  [find]
    returns [undefined] as well, unless [name] is the name of a member
    every object inherits: then it returns that member. *)
Theorem not_an_own_key
    s name (q : query) id (_embed dependent : option strings_arg)
    (data body : item) :
  has s name = false →
  find s name q =
    Normal (if bool_decide (name ∈ object_prototype_members)
            then FInherited name else FUndefined) ∧
  findById s name id _embed = Normal None ∧
  create s name data = (None, s) ∧
  updateById s name id body = (None, s) ∧
  destroyById s name id dependent = (None, s).
Proof.
  intros Hn%has_false.
  unfold find, findById, create, updateById, destroyById, read_data.
  rewrite Hn. by case_bool_decide.
Qed.

(** ** [create] *)

(** The record [create] builds is [data] laid over [{ id: randomId() }]. *)
Lemma create_list s name data its :
  get name (db s) = Some (CList its) →
  create s name data =
    (Some (data ∪ {[ "id" := VStr (randomId (draws s)) ]}),
     {| db := put name
                (CList (its ++ [data ∪ {[ "id" := VStr (randomId (draws s)) ]}]))
                (db s);
        draws := S (draws s) |}).
Proof. intros Hg. unfold create. by rewrite (read_data_own _ _ _ Hg). Qed.

(** C1, as amended.  On a list collection and for [data] with no [id]
    field (the parameter is typed [Omit<Item, 'id'>]), [create] returns
    a record whose [id] is the identifier drawn by this call, a string
    of four characters; every other field is the input's; the record is
    appended to the collection and the other collections are as they
    were. *)
Theorem create_mints_id s name data its :
  get name (db s) = Some (CList its) →
  data !! "id" = None →
  ∃ it s',
    create s name data = (Some it, s') ∧
    it !! "id" = Some (VStr (randomId (draws s))) ∧
    String.length (randomId (draws s)) = 4 ∧
    draws s' = S (draws s) ∧
    (∀ k, k ≠ "id" → it !! k = data !! k) ∧
    get name (db s') = Some (CList (its ++ [it])) ∧
    (∀ key, key ≠ name → get key (db s') = get key (db s)).
Proof.
  intros Hg Hid. eexists _, _. split; [by apply create_list|]. simpl.
  split_and!.
  - by rewrite lookup_union_r, lookup_singleton_eq.
  - apply randomId_length.
  - done.
  - intros k Hk. rewrite lookup_union, lookup_singleton_ne by done.
    by destruct (data !! k).
  - by erewrite get_put_eq.
  - intros key Hk. by apply get_put_ne.
Qed.

(** ** [updateById] *)

(** C7.  On a list collection that holds a record with the given [id],
    take the first such record: the record [it] at the position [i]
    where [it] has that [id] and no record before it has.  [updateById]
    returns [it] with the fields of [body] laid over it and [id] set
    back to the identifier asked for, which is the record's own,
    whatever [body] says; that record takes the place of [it] at [i],
    the collection keeps its length and its other records, and the
    other collections are as they were. *)
Theorem updateById_keeps_id s name id body its j it0 :
  get name (db s) = Some (CList its) →
  its !! j = Some it0 →
  it0 !! "id" = Some (VStr id) →
  ∃ i it nextItem s',
    its !! i = Some it ∧
    it !! "id" = Some (VStr id) ∧
    (∀ i' r, its !! i' = Some r → i' < i → r !! "id" ≠ Some (VStr id)) ∧
    (i ≤ j)%nat ∧
    updateById s name id body = (Some nextItem, s') ∧
    find_id id its = Some (i, it) ∧
    nextItem !! "id" = it !! "id" ∧
    nextItem !! "id" = Some (VStr id) ∧
    (∀ k, k ≠ "id" →
       nextItem !! k = match body !! k with
                       | Some v => Some v
                       | None => it !! k
                       end) ∧
    get name (db s') = Some (CList (<[i := nextItem]> its)) ∧
    <[i := nextItem]> its !! i = Some nextItem ∧
    (∀ i', i' ≠ i → <[i := nextItem]> its !! i' = its !! i') ∧
    (∀ key, key ≠ name → get key (db s') = get key (db s)) ∧
    draws s' = draws s.
Proof.
  intros Hg Hj Hid.
  destruct (find_id_present id its j it0 Hj Hid) as (i & it & Hf).
  pose proof Hf as (Hi & Hit & Hfirst)%find_id_Some.
  assert ((i ≤ j)%nat) as Hij.
  { destruct (decide (i ≤ j)%nat) as [|Hlt]; [done|].
    destruct (Hfirst j it0 Hj); [lia|done]. }
  exists i, it. eexists _, _. unfold updateById.
  rewrite (read_data_own _ _ _ Hg), Hf.
  do 4 (split; [done|]). split; [done|]. simpl. split_and!; try done.
  - by rewrite lookup_insert_eq.
  - by rewrite lookup_insert_eq.
  - intros k Hk. rewrite lookup_insert_ne, lookup_union by done.
    by destruct (body !! k), (it !! k).
  - by erewrite get_put_eq.
  - apply list_lookup_insert_eq. by eapply lookup_lt_Some.
  - intros i' Hi'. by apply list_lookup_insert_ne.
  - intros key Hk. by apply get_put_ne.
Qed.

(** ** [destroyById] *)



(** ** [embed] *)

Lemma filter_bool {A} (f : A → bool) (l : list A) :
  List.filter f l = filter (λ x, f x = true) l.
Proof.
  induction l as [|x l IH]; [done|]. simpl. rewrite filter_cons, IH.
  destruct (f x); [by rewrite decide_True | by rewrite decide_False].
Qed.


(** ** Identifier normalisation *)

Lemma fixItemId_normalised it n :
  normalised n it (fixItemId it n).1 ∧ (n ≤ (fixItemId it n).2)%nat.
Proof.
  unfold normalised, fixItemId.
  destruct (it !! "id") as [v|] eqn:Hid.
  - destruct v; rewrite ?lookup_insert_eq, ?Hid; simpl;
      (split; [split|lia]); try done; try by rewrite ?lookup_insert_eq.
    intros k Hk. by rewrite lookup_insert_ne.
  - rewrite Hid. simpl. split; [split|lia].
    + intros k Hk. by rewrite lookup_insert_ne.
    + exists n. rewrite lookup_insert_eq. eauto using randomId_length.
Qed.

Lemma normalised_mono n m it it' : (n ≤ m)%nat → normalised m it it' → normalised n it it'.
Proof.
  intros Hnm [Hk Hid]. split; [done|].
  destruct (it !! "id") as [[]|]; try done.
  destruct Hid as (m' & ? & ?). exists m'. split; [lia|done].
Qed.

Lemma fixItemsIds_normalised its n :
  Forall2 (normalised n) its (fixItemsIds its n).1 ∧ (n ≤ (fixItemsIds its n).2)%nat.
Proof.
  revert n. induction its as [|it its IH]; intros n; simpl; [by split|].
  destruct (fixItemId_normalised it n) as [Hit Hn].
  destruct (fixItemId it n) as [it' n1]. simpl in *.
  destruct (IH n1) as [Hits Hn1].
  destruct (fixItemsIds its n1) as [its' n2]. simpl in *.
  split; [|lia]. constructor; [done|].
  eapply Forall2_impl; [done|]. intros ???. by eapply normalised_mono.
Qed.

Lemma get_fixAllItemsIds d n name its :
  get name d = Some (CList its) →
  ∃ m, (n ≤ m)%nat ∧
    get name (fixAllItemsIds d n).1 = Some (CList (fixItemsIds its m).1).
Proof.
  revert n. induction d as [|[key c] d IH]; intros n; simpl; [done|].
  destruct c as [its0|single].
  - pose proof (fixItemsIds_normalised its0 n) as [_ Hn].
    destruct (fixItemsIds its0 n) as [its' n1] eqn:E0. simpl in Hn.
    destruct (fixAllItemsIds d n1) as [rest n2] eqn:E1. simpl.
    case_decide.
    + intros [= <-]. exists n. by rewrite E0.
    + intros Hg. destruct (IH n1 Hg) as (m & ? & Hm).
      rewrite E1 in Hm. exists m. split; [lia|done].
  - destruct (fixAllItemsIds d n) as [rest n2] eqn:E1. simpl.
    case_decide; [done|].
    intros Hg. destruct (IH n Hg) as (m & ? & Hm).
    rewrite E1 in Hm. by exists m.
Qed.

Lemma constructor_list d n name its :
  get name d = Some (CList its) →
  ∃ its', get name (db (constructor d n)) = Some (CList its') ∧
          Forall2 (normalised n) its its'.
Proof.
  intros Hg. destruct (get_fixAllItemsIds d n name its Hg) as (m & Hm & Hget).
  unfold constructor. destruct (fixAllItemsIds d n) as [d' n']. simpl in *.
  eexists. split; [done|].
  eapply Forall2_impl; [apply fixItemsIds_normalised|].
  intros ???. by eapply normalised_mono.
Qed.

(** C6, as amended.  After construction every list collection holds, in
    the same order, one record for each record loaded.  A numeric [id]
    has become the string [toString] gives for it; a missing [id] has
    become a generated string of four characters; any other [id],
    [null] and the empty string included, is the one loaded.  Every
    other field is the one loaded. *)
Theorem constructor_normalises_ids d n name its :
  get name d = Some (CList its) →
  ∃ its',
    get name (db (constructor d n)) = Some (CList its') ∧
    Forall2
      (λ it it',
         (∀ k, k ≠ "id" → it' !! k = it !! k) ∧
         match it !! "id" with
         | Some (VNum x) => it' !! "id" = Some (VStr (number_toString x))
         | None => ∃ m, (n ≤ m)%nat ∧ it' !! "id" = Some (VStr (randomId m)) ∧
                        String.length (randomId m) = 4
         | Some v => it' !! "id" = Some v
         end)
      its its'.
Proof.
  intros Hg.
  destruct (get_fixAllItemsIds d n name its Hg) as (m & Hm & Hget).
  unfold constructor. destruct (fixAllItemsIds d n) as [d' n']. simpl in *.
  exists (fixItemsIds its m).1. split; [exact Hget|].
  eapply Forall2_impl; [apply fixItemsIds_normalised|].
  intros it it' Hit. change (normalised n it it').
  by apply (normalised_mono n m).
Qed.

(** ** Foreign keys stored as numbers *)

(** What [destroyById] leaves in a list collection other than [name]:
    the records themselves when nothing was deleted, otherwise the
    records after nullifying and, for a dependent, filtering. *)
Lemma destroyById_other s name id dependent key others :
  key ≠ name →
  get key (db s) = Some (CList others) →
  get key (db (destroyById s name id dependent).2) = Some (CList others) ∨
  get key (db (destroyById s name id dependent).2) =
    Some (CList
      (let nulled := nullify_item (foreignKey name) id <$> others in
       if decide (key ∈ ensureArray dependent)
       then filter (λ r, r !! foreignKey name ≠ Some VNull) nulled
       else nulled)).
Proof.
  intros Hk Hg. unfold destroyById.
  destruct (read_data name (db s)) as [[[its|]|]|]; [|by left..].
  destruct (find_id id its) as [[i it]|]; [|by left].
  right. simpl.
  rewrite get_deleteDependents, get_nullifyForeignKey, get_put_ne, Hg by done.
  simpl. rewrite (decide_False (P := key = name)) by done.
  by case_decide.
Qed.

(** C10.  Take a record [child] whose foreign key for [name] is a
    number.  Construction leaves that field the number it was.  [embed]
    for a parent whose [id] is a string attaches a list that does not
    contain [child].  [destroyById] for [name] leaves [child], as it is,
    in its collection, dependent or not. *)
Theorem numeric_foreign_key_never_matches name id (child : item) (x : number) :
  child !! foreignKey name = Some (VNum x) →
  (∀ d n key its i,
     get key d = Some (CList its) → its !! i = Some child →
     ∃ its' child',
       get key (db (constructor d n)) = Some (CList its') ∧
       its' !! i = Some child' ∧
       child' !! foreignKey name = Some (VNum x)) ∧
  (∀ d (parent : item) related relatedData,
     parent !! "id" = Some (VStr id) →
     get related d = Some (CList relatedData) →
     ∃ embedded,
       embed d name parent related =
         Normal (<[related := VArr (VObj <$> embedded)]> parent) ∧
       child ∉ embedded) ∧
  (∀ s dependent key others,
     key ≠ name →
     get key (db s) = Some (CList others) → child ∈ others →
     ∃ others',
       get key (db (destroyById s name id dependent).2) = Some (CList others') ∧
       child ∈ others').
Proof.
  intros Hfk. split_and!.
  - intros d n key its i Hg Hi.
    destruct (constructor_list d n key its Hg) as (its' & Hg' & Hall).
    destruct (Forall2_lookup_l _ _ _ _ _ Hall Hi) as (child' & Hi' & Hfields & _).
    exists its', child'. split_and!; [done..|].
    rewrite Hfields by apply foreignKey_not_id. done.
  - intros d parent related relatedData Hid Hg.
    unfold embed. rewrite (read_data_own _ _ _ Hg). eexists. split; [done|].
    rewrite filter_bool, list_elem_of_filter, Hfk, Hid. simpl.
    intros [? _]. done.
  - intros s dependent key others Hk Hg Hin.
    assert (Hsame : nullify_item (foreignKey name) id child = child).
    { unfold nullify_item. by rewrite Hfk. }
    assert (Hnulled : child ∈ nullify_item (foreignKey name) id <$> others).
    { apply list_elem_of_fmap. by exists child. }
    destruct (destroyById_other s name id dependent key others Hk Hg)
      as [Hg'|Hg']; rewrite Hg'; eexists; (split; [done|]); [done|].
    simpl. case_decide; [|done].
    apply list_elem_of_filter. split; [|done]. rewrite Hfk. done.
Qed.

(** ** [find] *)

(** [find] reads [_embed] and nothing else of the query. *)
Lemma find_ignores_params s name (e : option strings_arg)
    (p1 p2 : gmap string qvalue) :
  find s name {| q_embed := e; q_params := p1 |} =
  find s name {| q_embed := e; q_params := p2 |}.
Proof. reflexivity. Qed.

(** Without [_embed], a list collection comes back as it is stored. *)
Lemma find_stored_order s name (p : gmap string qvalue) its :
  get name (db s) = Some (CList its) →
  find s name {| q_embed := None; q_params := p |} = Normal (FItems its).
Proof. intros Hg. unfold find. by rewrite (read_data_own _ _ _ Hg). Qed.

(** No call of [find] results in a [PaginatedItems]. *)
Lemma find_never_paginates s name (q : query) (p : PaginatedItems) :
  find s name q ≠ Normal (FPaginated p).
Proof.
  unfold find. destruct (read_data name (db s)) as [[[its|]|]|]; try done.
  by destruct (forEachM _ _ _).
Qed.

(** * Further properties of the service *)

(** ** Records that are not there, collections of the other kind *)

Lemma find_id_None id its :
  find_id id its = None ↔ Forall (λ r : item, r !! "id" ≠ Some (VStr id)) its.
Proof.
  unfold find_id. rewrite list_find_None. apply Forall_iff.
  intros r. by rewrite has_id_iff.
Qed.

Lemma forEachM_embed_None d name (rel : list string) :
  forEachM
    (λ (acc : option item) related,
       match acc with
       | Some it => it' ← embed d name it related; Normal (Some it')
       | None => Normal None
       end) rel None = Normal None.
Proof. induction rel as [|r rel IH]; [done|]. simpl. exact IH. Qed.

(** X1.  On a list collection that holds no record with the given [id],
    [findById] completes with [undefined] whatever [_embed] names, and
    [updateById] and [destroyById] return [undefined] and hand back the
    state they were given. *)
Theorem unknown_id_is_undefined
    s name id (_embed dependent : option strings_arg) (body : item) its :
  get name (db s) = Some (CList its) →
  Forall (λ r : item, r !! "id" ≠ Some (VStr id)) its →
  findById s name id _embed = Normal None ∧
  updateById s name id body = (None, s) ∧
  destroyById s name id dependent = (None, s).
Proof.
  intros Hg Hnone%find_id_None.
  unfold findById, updateById, destroyById.
  rewrite (read_data_own _ _ _ Hg), Hnone. simpl.
  split; [apply forEachM_embed_None|done].
Qed.

(** X2.  On a name that holds a single record, [find] returns that
    record whatever the query, [_embed] included; [findById] completes
    with [undefined]; [create], [updateById] and [destroyById] return
    [undefined] and hand back the state they were given. *)
Theorem single_record_is_not_a_list
    s name (single : item) (q : query) id
    (_embed dependent : option strings_arg) (data body : item) :
  get name (db s) = Some (CSingle single) →
  find s name q = Normal (FItem single) ∧
  findById s name id _embed = Normal None ∧
  create s name data = (None, s) ∧
  updateById s name id body = (None, s) ∧
  destroyById s name id dependent = (None, s).
Proof.
  intros Hg. unfold find, findById, create, updateById, destroyById.
  by rewrite (read_data_own _ _ _ Hg).
Qed.

(** ** When [embed], [find] and [findById] throw *)

Lemma embed_throws_iff d name it related :
  embed d name it related = Throw ↔ not_a_list d related = true.
Proof.
  unfold embed, not_a_list. by destruct (read_data related d) as [[[]|]|].
Qed.

Lemma embed_returns d name it related :
  not_a_list d related = false →
  ∃ it', embed d name it related = Normal it' ∧
         ∀ k, k ≠ related → it' !! k = it !! k.
Proof.
  unfold embed, not_a_list.
  destruct (read_data related d) as [[[rel|]|]|]; try done.
  - intros _. eexists. split; [done|]. intros k Hk. by rewrite lookup_insert_ne.
  - intros _. by exists it.
Qed.

Lemma mapM_completion_cons {A B} (f : A → completion B) x l :
  mapM f (x :: l) =
    match f x with
    | Normal y => match mapM f l with
                  | Normal k => Normal (y :: k)
                  | Throw => Throw
                  end
    | Throw => Throw
    end.
Proof.
  simpl. destruct (f x) as [y|]; [|done]. simpl.
  by destruct (mapM f l).
Qed.

Lemma mapM_completion_Normal {A B} (f : A → completion B) l k :
  mapM f l = Normal k → Forall2 (λ x y, f x = Normal y) l k.
Proof.
  revert k. induction l as [|x l IH]; intros k.
  - intros [= <-]. constructor.
  - rewrite mapM_completion_cons.
    destruct (f x) as [y|] eqn:Ex; [|done].
    destruct (mapM f l) as [k'|]; [|done].
    intros [= <-]. constructor; [done|]. by apply IH.
Qed.

Lemma mapM_completion_Forall2 {A B} (f : A → completion B) l k :
  Forall2 (λ x y, f x = Normal y) l k → mapM f l = Normal k.
Proof.
  induction 1 as [|x y l k Hxy _ IH]; [done|].
  by rewrite mapM_completion_cons, Hxy, IH.
Qed.

Lemma mapM_embed_returns d name related (acc : list item) :
  not_a_list d related = false →
  ∃ acc', mapM (λ it, embed d name it related) acc = Normal acc' ∧
          Forall2 (λ it it', ∀ k, k ≠ related → it' !! k = it !! k) acc acc'.
Proof.
  intros Hs. induction acc as [|it acc (acc' & E & Hall)].
  - exists []. by split.
  - destruct (embed_returns d name it related Hs) as (it' & Eit & Hk).
    exists (it' :: acc'). rewrite mapM_completion_cons, Eit, E.
    split; [done|]. by constructor.
Qed.

Lemma mapM_embed_throws d name related (acc : list item) :
  not_a_list d related = true → acc ≠ [] →
  mapM (λ it, embed d name it related) acc = Throw.
Proof.
  intros Hs Hacc. destruct acc as [|it acc]; [done|].
  rewrite mapM_completion_cons.
  by rewrite (proj2 (embed_throws_iff d name it related) Hs).
Qed.

Lemma forEachM_embed_returns d name (rel : list string) (acc : list item) :
  Forall (λ r, not_a_list d r = false) rel ∨ acc = [] →
  ∃ acc',
    forEachM (λ acc related, mapM (λ it, embed d name it related) acc) rel acc
      = Normal acc' ∧
    Forall2 (λ it it', ∀ k, k ∉ rel → it' !! k = it !! k) acc acc'.
Proof.
  revert acc. induction rel as [|r rel IH]; intros acc Hok.
  - exists acc. split; [done|]. by apply Forall_Forall2_diag, Forall_true.
  - simpl. destruct Hok as [[Hr Hrel]%Forall_cons | ->].
    + destruct (mapM_embed_returns d name r acc Hr) as (acc1 & E & H1).
      rewrite E. simpl.
      destruct (IH acc1 (or_introl Hrel)) as (acc' & E' & H2).
      exists acc'. split; [done|].
      eapply Forall2_trans; [|exact H1|exact H2].
      intros it it1 it' Ha Hb k Hk. apply not_elem_of_cons in Hk as [??].
      by rewrite Hb, Ha.
    + destruct (IH [] (or_intror eq_refl)) as (acc' & E' & H2).
      apply Forall2_nil_inv_l in H2 as ->.
      exists []. split; [exact E'|constructor].
Qed.

Lemma forEachM_embed_throws d name (rel : list string) (acc : list item) :
  acc ≠ [] → Exists (λ r, not_a_list d r = true) rel →
  forEachM (λ acc related, mapM (λ it, embed d name it related) acc) rel acc
    = Throw.
Proof.
  intros Hacc Hex. revert acc Hacc.
  induction rel as [|r rel IH]; intros acc Hacc; [by inversion Hex|].
  simpl. destruct (not_a_list d r) eqn:Hr.
  - by rewrite mapM_embed_throws.
  - destruct (mapM_embed_returns d name r acc Hr) as (acc1 & E & H1).
    rewrite E. simpl. apply IH.
    + apply Exists_cons in Hex as [Hex|Hex]; [congruence|done].
    + intros ->. apply Forall2_length in H1. by destruct acc.
Qed.

(** X3.  [find] throws exactly when the collection is a list that is
    not empty and one of the names in [_embed] reads as something that
    is there and is no list: a single record of the store, or a member
    every object inherits ([toString], [constructor], ...).  On an empty
    list it returns the empty list whatever [_embed] names. *)
Theorem find_throws_iff s name (q : query) :
  find s name q = Throw ↔
  ∃ its,
    get name (db s) = Some (CList its) ∧ its ≠ [] ∧
    ∃ related,
      related ∈ ensureArray (q_embed q) ∧ not_a_list (db s) related = true.
Proof.
  unfold find. split.
  - destruct (read_data name (db s)) as [[[its|]|]|] eqn:Hg; [|done..].
    apply read_data_Own in Hg.
    intros Hthrow. exists its. split; [done|].
    destruct (decide (its = [])) as [->|Hne].
    { destruct (forEachM_embed_returns (db s) name (ensureArray (q_embed q)) [])
        as (acc' & E & _); [by right|]. by rewrite E in Hthrow. }
    split; [done|].
    destruct (decide (Exists (λ r, not_a_list (db s) r = true)
                        (ensureArray (q_embed q)))) as [Hex|Hno].
    { apply Exists_exists in Hex as (r & ? & ?). by exists r. }
    apply not_Exists_Forall in Hno; [|apply _].
    destruct (forEachM_embed_returns (db s) name (ensureArray (q_embed q)) its)
      as (acc' & E & _).
    { left. eapply Forall_impl; [exact Hno|]. simpl. intros r Hr.
      by destruct (not_a_list (db s) r). }
    by rewrite E in Hthrow.
  - intros (its & Hg & Hne & r & Hin & Hr). rewrite (read_data_own _ _ _ Hg).
    rewrite forEachM_embed_throws; [done..|].
    apply Exists_exists. by exists r.
Qed.

Lemma forEachM_embed_one_returns d name (rel : list string) (it : item) :
  Forall (λ r, not_a_list d r = false) rel →
  ∃ it',
    forEachM
      (λ (acc : option item) related,
         match acc with
         | Some it => it' ← embed d name it related; Normal (Some it')
         | None => Normal None
         end) rel (Some it) = Normal (Some it') ∧
    ∀ k, k ∉ rel → it' !! k = it !! k.
Proof.
  revert it. induction rel as [|r rel IH]; intros it Hok.
  - by exists it.
  - apply Forall_cons in Hok as [Hr Hrel]. simpl.
    destruct (embed_returns d name it r Hr) as (it1 & E & H1).
    rewrite E. simpl.
    destruct (IH it1 Hrel) as (it' & E' & H2).
    exists it'. split; [done|].
    intros k [??]%not_elem_of_cons. by rewrite H2, H1.
Qed.

Lemma forEachM_embed_one_throws d name (rel : list string) (it : item) :
  Exists (λ r, not_a_list d r = true) rel →
  forEachM
    (λ (acc : option item) related,
       match acc with
       | Some it => it' ← embed d name it related; Normal (Some it')
       | None => Normal None
       end) rel (Some it) = Throw.
Proof.
  revert it. induction rel as [|r rel IH]; intros it Hex; [by inversion Hex|].
  simpl. destruct (not_a_list d r) eqn:Hr.
  - by rewrite (proj2 (embed_throws_iff d name it r) Hr).
  - destruct (embed_returns d name it r Hr) as (it1 & E & _).
    rewrite E. simpl. apply IH.
    apply Exists_cons in Hex as [Hex|Hex]; [congruence|done].
Qed.

(** X4.  [findById] throws exactly when the collection is a list, holds
    a record with the given [id], and one of the names in [_embed] reads
    as something that is there and is no list: a single record of the
    store, or a member every object inherits.  When no record has the
    [id], nothing is embedded and nothing is thrown. *)
Theorem findById_throws_iff s name id (_embed : option strings_arg) :
  findById s name id _embed = Throw ↔
  ∃ its i it,
    get name (db s) = Some (CList its) ∧ find_id id its = Some (i, it) ∧
    ∃ related,
      related ∈ ensureArray _embed ∧ not_a_list (db s) related = true.
Proof.
  unfold findById. split.
  - destruct (read_data name (db s)) as [[[its|]|]|] eqn:Hg; [|done..].
    apply read_data_Own in Hg.
    destruct (find_id id its) as [[i it]|] eqn:Hf; simpl;
      [|by rewrite forEachM_embed_None].
    intros Hthrow. exists its, i, it. split; [done|]. split; [done|].
    destruct (decide (Exists (λ r, not_a_list (db s) r = true)
                        (ensureArray _embed))) as [Hex|Hno].
    { apply Exists_exists in Hex as (r & ? & ?). by exists r. }
    apply not_Exists_Forall in Hno; [|apply _].
    destruct (forEachM_embed_one_returns (db s) name (ensureArray _embed) it)
      as (it' & E & _).
    { eapply Forall_impl; [exact Hno|]. simpl. intros r Hr.
      by destruct (not_a_list (db s) r). }
    by rewrite E in Hthrow.
  - intros (its & i & it & Hg & Hf & r & Hin & Hr). rewrite (read_data_own _ _ _ Hg), Hf. simpl.
    apply forEachM_embed_one_throws, Exists_exists. by exists r.
Qed.

(** ** What embedding leaves alone *)

(** X5.  When every name in [_embed] reads as a list or as nothing, so
    none is a single record of the store or a member every object
    inherits, [find] on a list collection returns one record for each
    stored record, in the stored order, and each agrees with its stored
    record on every field that is not one of the embedded names. *)
Theorem find_embeds_in_place s name (q : query) its :
  get name (db s) = Some (CList its) →
  Forall (λ r, not_a_list (db s) r = false) (ensureArray (q_embed q)) →
  ∃ its',
    find s name q = Normal (FItems its') ∧
    length its' = length its ∧
    Forall2 (λ it it', ∀ k, k ∉ ensureArray (q_embed q) → it' !! k = it !! k)
      its its'.
Proof.
  intros Hg Hok. unfold find. rewrite (read_data_own _ _ _ Hg).
  destruct (forEachM_embed_returns (db s) name (ensureArray (q_embed q)) its)
    as (its' & E & Hall); [by left|].
  exists its'. rewrite E. split; [done|]. split; [|done].
  symmetry. by eapply Forall2_length.
Qed.

Lemma forEachM_embed_lookup d name (rel : list string) (acc acc' : list item) i :
  forEachM (λ acc related, mapM (λ it, embed d name it related) acc) rel acc
    = Normal acc' →
  forEachM
    (λ (acc : option item) related,
       match acc with
       | Some it => it' ← embed d name it related; Normal (Some it')
       | None => Normal None
       end) rel (acc !! i) = Normal (acc' !! i).
Proof.
  revert acc. induction rel as [|r rel IH]; intros acc; simpl.
  - by intros [= ->].
  - destruct (mapM (λ it, embed d name it r) acc) as [acc1|] eqn:E; [|done].
    simpl. intros Hrest. apply mapM_completion_Normal in E.
    specialize (IH acc1 Hrest).
    destruct (acc !! i) as [it|] eqn:Hi.
    + destruct (Forall2_lookup_l _ _ _ _ _ E Hi) as (it1 & Hi1 & Eit).
      rewrite Eit. simpl. by rewrite Hi1 in IH.
    + assert (acc1 !! i = None) as Hi1.
      { apply lookup_ge_None. apply lookup_ge_None in Hi.
        apply Forall2_length in E. lia. }
      simpl. by rewrite Hi1 in IH.
Qed.

(** X6.  [findById] agrees with [find]: when [find] returns a list for
    some [_embed], [findById] with the same [_embed] returns the entry
    of that list at the position of the first stored record with the
    given [id], and [undefined] when no stored record has it. *)
Theorem findById_agrees_with_find
    s name id (_embed : option strings_arg) (p : gmap string qvalue) its its' :
  get name (db s) = Some (CList its) →
  find s name {| q_embed := _embed; q_params := p |} = Normal (FItems its') →
  findById s name id _embed =
    Normal (match find_id id its with
            | Some (i, _) => its' !! i
            | None => None
            end).
Proof.
  intros Hg. unfold find, findById. rewrite (read_data_own _ _ _ Hg). simpl.
  destruct (forEachM _ (ensureArray _embed) its) as [acc'|] eqn:E; [|done].
  simpl. intros [= <-].
  destruct (find_id id its) as [[i it]|] eqn:Hf; simpl.
  - apply find_id_Some in Hf as (Hi & _). rewrite <-Hi.
    by apply forEachM_embed_lookup.
  - apply forEachM_embed_None.
Qed.

(** ** The order and the repetition of embedded names *)

Lemma embed_commute d name it a b :
  a ≠ b → a ≠ "id" → b ≠ "id" →
  (it1 ← embed d name it a; embed d name it1 b) =
  (it2 ← embed d name it b; embed d name it2 a).
Proof.
  intros Hab Ha Hb. unfold embed.
  destruct (read_data a d) as [[[ra|]|]|], (read_data b d) as [[[rb|]|]|];
    simpl; try done.
  rewrite !lookup_insert_ne by done. f_equal. by apply insert_insert_ne.
Qed.

Lemma embed_twice d name it a :
  a ≠ "id" →
  (it1 ← embed d name it a; embed d name it1 a) = embed d name it a.
Proof.
  intros Ha. unfold embed.
  destruct (read_data a d) as [[[ra|]|]|]; simpl; try done.
  rewrite lookup_insert_ne by done. f_equal. apply insert_insert_eq.
Qed.

Lemma mapM_completion_fuse {A B C} (f : A → completion B) (g : B → completion C) l :
  (k ← mapM f l; mapM g k) = mapM (λ x, y ← f x; g y) l.
Proof.
  induction l as [|x l IH]; [done|].
  rewrite !mapM_completion_cons, <-IH.
  destruct (f x) as [y|]; [|done].
  destruct (mapM f l) as [k|]; unfold mbind, completion_bind.
  - apply mapM_completion_cons.
  - by destruct (g y).
Qed.

Lemma mapM_completion_ext {A B} (f g : A → completion B) l :
  (∀ x, f x = g x) → mapM f l = mapM g l.
Proof.
  intros Hfg. induction l as [|x l IH]; [done|].
  by rewrite !mapM_completion_cons, Hfg, IH.
Qed.

Lemma bind_Normal_r {A} (m : completion A) : (x ← m; Normal x) = m.
Proof. by destruct m. Qed.

(** X7.  The order of two different names in [_embed], neither of them
    [id], does not matter to the fields of the result: with the names
    either way round [findById] and [find] both throw, or both return
    records with the same fields holding the same values.  A record is
    a map from field names to values here; the order in which a
    JavaScript object lists its keys, which follows the order of the
    names, is not part of it. *)
Theorem embed_order_is_irrelevant s name id a b (p : gmap string qvalue) :
  a ≠ b → a ≠ "id" → b ≠ "id" →
  findById s name id (Some (Many [a; b])) =
    findById s name id (Some (Many [b; a])) ∧
  find s name {| q_embed := Some (Many [a; b]); q_params := p |} =
    find s name {| q_embed := Some (Many [b; a]); q_params := p |}.
Proof.
  intros Hab Ha Hb. unfold findById, find.
  destruct (read_data name (db s)) as [[[its|]|]|]; [|done..]. simpl. split.
  - destruct (find_id id its) as [[i it]|]; [|done]. simpl.
    pose proof (embed_commute (db s) name it a b Hab Ha Hb) as E.
    destruct (embed (db s) name it a) as [ia|],
             (embed (db s) name it b) as [ib|]; simpl in *; try done.
    + by rewrite E.
    + by rewrite E.
    + by rewrite <-E.
  - f_equal.
    assert (∀ x y,
      (acc' ← mapM (λ it, embed (db s) name it x) its;
       acc'' ← mapM (λ it, embed (db s) name it y) acc'; Normal acc'') =
      mapM (λ it, it1 ← embed (db s) name it x; embed (db s) name it1 y) its)
      as Hfuse.
    { intros x y. rewrite <-mapM_completion_fuse.
      destruct (mapM _ its) as [acc'|]; [|done]. simpl.
      apply bind_Normal_r. }
    rewrite !Hfuse. apply mapM_completion_ext. intros it.
    by apply embed_commute.
Qed.

(** X8.  Naming a collection twice in [_embed] gives what naming it
    once gives, for [findById] and for [find], when the name is not
    [id]. *)
Theorem embed_twice_is_once s name id a (p : gmap string qvalue) :
  a ≠ "id" →
  findById s name id (Some (Many [a; a])) = findById s name id (Some (One a)) ∧
  find s name {| q_embed := Some (Many [a; a]); q_params := p |} =
    find s name {| q_embed := Some (One a); q_params := p |}.
Proof.
  intros Ha. unfold findById, find.
  destruct (read_data name (db s)) as [[[its|]|]|]; [|done..]. simpl. split.
  - destruct (find_id id its) as [[i it]|]; [|done]. simpl.
    pose proof (embed_twice (db s) name it a Ha) as E.
    destruct (embed (db s) name it a) as [ia|]; simpl in *; [|done].
    by rewrite E.
  - f_equal.
    pose proof (mapM_completion_fuse (λ it, embed (db s) name it a)
                  (λ it, embed (db s) name it a) its) as Hfuse.
    cbv beta in Hfuse.
    assert (mapM (λ x, y ← embed (db s) name x a; embed (db s) name y a) its =
            mapM (λ it, embed (db s) name it a) its) as Hext
      by (apply mapM_completion_ext; intros it; by apply embed_twice).
    rewrite Hext in Hfuse.
    destruct (mapM (λ it, embed (db s) name it a) its) as [acc'|] eqn:E;
      simpl in *; [|done].
    rewrite Hfuse. done.
Qed.

(** ** [create], then looking up *)

Lemma findById_plain s name id its :
  get name (db s) = Some (CList its) →
  findById s name id None = Normal (snd <$> find_id id its).
Proof. intros Hg. unfold findById. by rewrite (read_data_own _ _ _ Hg). Qed.

(** X9.  When [data] carries an [id] of its own, whatever its value,
    the record [create] appends and returns is [data] itself; the
    identifier drawn for it is dropped, and no stored [id] is looked
    at. *)
Theorem create_keeps_data_with_id s name data its :
  get name (db s) = Some (CList its) →
  is_Some (data !! "id") →
  create s name data =
    (Some data,
     {| db := put name (CList (its ++ [data])) (db s);
        draws := S (draws s) |}).
Proof.
  intros Hg [v Hv].
  assert (data ∪ {[ "id" := VStr (randomId (draws s)) ]} = data) as E.
  { apply map_eq. intros k. rewrite lookup_union.
    destruct (decide (k = "id")) as [->|Hk].
    - by rewrite Hv, lookup_singleton_eq.
    - rewrite lookup_singleton_ne by done. by destruct (data !! k). }
  by rewrite (create_list s name data its Hg), E.
Qed.

(** X10.  A record just created is found by its [id] when that [id] is
    a string that no record of the collection had before. *)
Theorem created_record_is_found s name data its it s' id :
  get name (db s) = Some (CList its) →
  create s name data = (Some it, s') →
  it !! "id" = Some (VStr id) →
  Forall (λ r : item, r !! "id" ≠ Some (VStr id)) its →
  findById s' name id None = Normal (Some it).
Proof.
  intros Hg Hc Hid Hfresh. rewrite (create_list s name data its Hg) in Hc.
  injection Hc as <- <-.
  rewrite (findById_plain _ name id (its ++ [data ∪ {[ "id" := VStr (randomId (draws s)) ]}])).
  2:{ simpl. by erewrite get_put_eq. }
  apply find_id_None in Hfresh.
  assert (find_id id (its ++ [data ∪ {[ "id" := VStr (randomId (draws s)) ]}])
          = Some (length its + 0, data ∪ {[ "id" := VStr (randomId (draws s)) ]}))
    as ->; [|done].
  unfold find_id in *. apply list_find_app_Some. right.
  split; [lia|]. split; [done|].
  replace (length its + 0 - length its) with 0 by lia.
  apply list_find_Some. split; [done|]. split; [by apply has_id_iff|].
  intros j y _ Hj. lia.
Qed.

(** X11.  [create] shadows nothing: an [id] that was found before is
    still found, at the same record, afterwards; so a record created
    with an [id] that the collection already has is never the one
    [findById] returns. *)
Theorem create_never_shadows s name data its it s' id i r :
  get name (db s) = Some (CList its) →
  create s name data = (Some it, s') →
  find_id id its = Some (i, r) →
  findById s name id None = Normal (Some r) ∧
  findById s' name id None = Normal (Some r).
Proof.
  intros Hg Hc Hf. rewrite (create_list s name data its Hg) in Hc.
  injection Hc as <- <-.
  rewrite (findById_plain s name id its Hg), Hf. split; [done|].
  rewrite (findById_plain _ name id (its ++ [data ∪ {[ "id" := VStr (randomId (draws s)) ]}])).
  2:{ simpl. by erewrite get_put_eq. }
  assert (find_id id (its ++ [data ∪ {[ "id" := VStr (randomId (draws s)) ]}])
          = Some (i, r)) as ->; [|done].
  unfold find_id in *. apply list_find_app_Some. by left.
Qed.

(** ** [updateById], then looking up, and again *)

Lemma put_same name (c : collection) d : get name d = Some c → put name c d = d.
Proof.
  induction d as [|[key c1] d IH]; simpl; [done|].
  case_decide; [by intros [= ->]|]. intros Hg. by rewrite IH.
Qed.

Lemma put_put name (c1 c2 : collection) d :
  put name c2 (put name c1 d) = put name c2 d.
Proof.
  induction d as [|[key c0] d IH]; simpl; [done|].
  destruct (decide (key = name)) as [->|Hk]; simpl.
  - by rewrite decide_True.
  - by rewrite decide_False, IH.
Qed.

Lemma updateById_found s name id body its i it :
  get name (db s) = Some (CList its) →
  find_id id its = Some (i, it) →
  updateById s name id body =
    (Some (<["id" := VStr id]> (body ∪ it)),
     {| db := put name (CList (<[i := <["id" := VStr id]> (body ∪ it)]> its)) (db s);
        draws := draws s |}).
Proof. intros Hg Hf. unfold updateById. by rewrite (read_data_own _ _ _ Hg), Hf. Qed.

Lemma find_id_insert id its i it (it' : item) :
  find_id id its = Some (i, it) →
  it' !! "id" = Some (VStr id) →
  find_id id (<[i := it']> its) = Some (i, it').
Proof.
  intros (Hi & Hid & Hfirst)%find_id_Some Hid'. apply find_id_Some.
  split_and!; [|done|].
  - apply list_lookup_insert_eq. by eapply lookup_lt_Some.
  - intros j r Hj Hlt. rewrite list_lookup_insert_ne in Hj by lia. eauto.
Qed.

(** X12.  After [updateById] has replaced a record, [findById] with the
    same [id] returns the record [updateById] returned. *)
Theorem updated_record_is_found s name id body its i it r s' :
  get name (db s) = Some (CList its) →
  find_id id its = Some (i, it) →
  updateById s name id body = (Some r, s') →
  findById s' name id None = Normal (Some r).
Proof.
  intros Hg Hf Hu. rewrite (updateById_found s name id body its i it Hg Hf) in Hu.
  injection Hu as <- <-.
  erewrite findById_plain; [|simpl; by erewrite get_put_eq].
  erewrite find_id_insert; [done..|]. by rewrite lookup_insert_eq.
Qed.

(** X13.  [updateById] with an empty body changes nothing: it returns
    the stored record and the state it was given. *)
Theorem updateById_empty_body s name id its i it :
  get name (db s) = Some (CList its) →
  find_id id its = Some (i, it) →
  updateById s name id ∅ = (Some it, s).
Proof.
  intros Hg Hf. rewrite (updateById_found s name id ∅ its i it Hg Hf).
  pose proof Hf as (Hi & Hid & _)%find_id_Some.
  rewrite (left_id_L ∅ (∪) it), insert_id by done.
  rewrite list_insert_id by done. rewrite put_same by done.
  by destruct s.
Qed.

(** X14.  [updateById] is idempotent: the same update applied a second
    time returns the same record and leaves the state the first one
    left. *)
Theorem updateById_twice s name id body its i it :
  get name (db s) = Some (CList its) →
  find_id id its = Some (i, it) →
  updateById (updateById s name id body).2 name id body =
    updateById s name id body.
Proof.
  intros Hg Hf. rewrite (updateById_found s name id body its i it Hg Hf). simpl.
  set (r := <["id" := VStr id]> (body ∪ it)).
  assert (r !! "id" = Some (VStr id)) as Hr by apply lookup_insert_eq.
  erewrite (updateById_found _ name id body (<[i := r]> its) i r);
    [|simpl; by erewrite get_put_eq|exact (find_id_insert id its i it r Hf Hr)].
  simpl. rewrite put_put, list_insert_insert_eq.
  assert (<["id" := VStr id]> (body ∪ r) = r) as ->; [|done].
  apply map_eq. intros k. unfold r.
  destruct (decide (k = "id")) as [->|Hk].
  - by rewrite !lookup_insert_eq.
  - rewrite !lookup_insert_ne, !lookup_union, lookup_insert_ne, lookup_union by done.
    by destruct (body !! k), (it !! k).
Qed.

(** X15.  [updateById] never changes which [id] sits where: the list of
    the [id]s of the collection, position by position, is the same
    after as before. *)
Theorem updateById_keeps_id_column s name id body its :
  get name (db s) = Some (CList its) →
  ∃ its',
    get name (db (updateById s name id body).2) = Some (CList its') ∧
    (λ r : item, r !! "id") <$> its' = (λ r : item, r !! "id") <$> its.
Proof.
  intros Hg. destruct (find_id id its) as [[i it]|] eqn:Hf.
  - rewrite (updateById_found s name id body its i it Hg Hf). simpl.
    eexists. split; [by erewrite get_put_eq|].
    pose proof Hf as (Hi & Hid & _)%find_id_Some.
    rewrite list_fmap_insert, lookup_insert_eq, <-Hid.
    apply list_insert_id. by rewrite list_lookup_fmap, Hi.
  - unfold updateById. rewrite (read_data_own _ _ _ Hg), Hf. by exists its.
Qed.

(** ** [destroyById]: what is left behind *)

Lemma destroyById_found s name id dependent its i it :
  get name (db s) = Some (CList its) →
  find_id id its = Some (i, it) →
  destroyById s name id dependent =
    (Some it,
     {| db := deleteDependents
                (nullifyForeignKey (put name (CList (delete i its)) (db s)) name id)
                name (ensureArray dependent);
        draws := draws s |}).
Proof. intros Hg Hf. unfold destroyById. by rewrite (read_data_own _ _ _ Hg), Hf. Qed.

Lemma destroyById_Some s name id dependent it s' :
  destroyById s name id dependent = (Some it, s') →
  ∃ its i, get name (db s) = Some (CList its) ∧ find_id id its = Some (i, it).
Proof.
  unfold destroyById.
  destruct (read_data name (db s)) as [[[its|]|]|] eqn:Hg; [|done..].
  apply read_data_Own in Hg.
  destruct (find_id id its) as [[i r]|] eqn:Hf; [|done].
  intros [= <- _]. by exists its, i.
Qed.

(** The collection [key] after a deletion that found its record. *)
Lemma get_destroyed s name id dependent its i key :
  get name (db s) = Some (CList its) →
  get key
    (deleteDependents
       (nullifyForeignKey (put name (CList (delete i its)) (db s)) name id)
       name (ensureArray dependent)) =
  (λ c, match c with
        | CList l =>
            CList (if decide (key ∈ ensureArray dependent)
                   then filter (λ r, r !! foreignKey name ≠ Some VNull) l
                   else l)
        | CSingle _ => c
        end) <$>
  (if decide (key = name) then Some (CList (delete i its))
   else (λ c, match c with
              | CList l => CList (nullify_item (foreignKey name) id <$> l)
              | CSingle _ => c
              end) <$> get key (db s)).
Proof.
  intros Hg. rewrite get_deleteDependents, get_nullifyForeignKey.
  destruct (decide (key = name)) as [->|Hk].
  - erewrite get_put_eq by done. simpl. by case_decide.
  - rewrite get_put_ne by done.
    destruct (get key (db s)) as [[l|o]|]; simpl;
      [by case_decide|by case_decide|done].
Qed.

Lemma nullify_item_no_reference fk id (it : item) :
  nullify_item fk id it !! fk ≠ Some (VStr id).
Proof.
  rewrite nullify_item_decide. case_decide; [|done].
  by rewrite lookup_insert_eq.
Qed.

Lemma Forall_filter_keeps {A} (P Q : A → Prop) `{!∀ x, Decision (Q x)} l :
  Forall P l → Forall P (filter Q l).
Proof.
  rewrite !Forall_forall. intros Hall x [_ Hx]%list_elem_of_filter. auto.
Qed.

(** X16.  After [destroyById] has deleted a record, no record of any
    other list collection has the deleted [id] as its foreign key. *)
Theorem destroyById_leaves_no_reference s name id dependent it s' :
  destroyById s name id dependent = (Some it, s') →
  ∀ key others,
    key ≠ name → get key (db s') = Some (CList others) →
    Forall (λ r : item, r !! foreignKey name ≠ Some (VStr id)) others.
Proof.
  intros Hd key others Hk.
  destruct (destroyById_Some _ _ _ _ _ _ Hd) as (its & i & Hg & Hf).
  rewrite (destroyById_found s name id dependent its i it Hg Hf) in Hd.
  injection Hd as <-. simpl.
  rewrite (get_destroyed s name id dependent its i key Hg).
  rewrite decide_False by done.
  destruct (get key (db s)) as [[l|o]|]; simpl; [|done..].
  intros [= <-].
  assert (Forall (λ r : item, r !! foreignKey name ≠ Some (VStr id))
            (nullify_item (foreignKey name) id <$> l)) as Hall.
  { apply Forall_fmap, Forall_true. intros r. apply nullify_item_no_reference. }
  case_decide; [by apply Forall_filter_keeps|done].
Qed.

(** X17.  When only one record of the collection has the [id],
    [destroyById] makes it unknown: afterwards [findById] completes with
    [undefined] and a second [destroyById] returns [undefined] and
    changes nothing. *)
Theorem destroyed_record_is_gone
    s name id (dependent dependent' _embed : option strings_arg) its i it :
  get name (db s) = Some (CList its) →
  find_id id its = Some (i, it) →
  (∀ j r, its !! j = Some r → r !! "id" = Some (VStr id) → j = i) →
  findById (destroyById s name id dependent).2 name id _embed = Normal None ∧
  destroyById (destroyById s name id dependent).2 name id dependent' =
    (None, (destroyById s name id dependent).2).
Proof.
  intros Hg Hf Huniq.
  rewrite (destroyById_found s name id dependent its i it Hg Hf). simpl.
  set (s' := {| db := _; draws := _ |}).
  assert (Forall (λ r : item, r !! "id" ≠ Some (VStr id)) (delete i its)) as Hgone.
  { apply Forall_lookup. intros j r Hj Hid.
    rewrite list_lookup_delete in Hj.
    specialize (Huniq _ _ Hj Hid). case_decide; lia. }
  assert (∃ its', get name (db s') = Some (CList its') ∧
                  find_id id its' = None) as (its' & Hg' & Hnone).
  { unfold s'. simpl.
    rewrite (get_destroyed s name id dependent its i name Hg).
    rewrite decide_True by done. simpl. eexists. split; [done|].
    apply find_id_None. case_decide; [by apply Forall_filter_keeps|done]. }
  unfold findById, destroyById.
  rewrite (read_data_own _ _ _ Hg'), Hnone. simpl.
  split; [apply forEachM_embed_None|done].
Qed.

(** X18.  A deletion never makes a list collection longer.  A
    collection that is not named in [dependent] keeps its length, but
    for the collection deleted from, which loses exactly one record. *)
Theorem destroyById_lengths s name id dependent it s' key before :
  destroyById s name id dependent = (Some it, s') →
  get key (db s) = Some (CList before) →
  ∃ after,
    get key (db s') = Some (CList after) ∧
    (length after ≤ length before)%nat ∧
    (key ∉ ensureArray dependent →
     length after = if decide (key = name) then length before - 1
                    else length before).
Proof.
  intros Hd Hgk.
  destruct (destroyById_Some _ _ _ _ _ _ Hd) as (its & i & Hg & Hf).
  rewrite (destroyById_found s name id dependent its i it Hg Hf) in Hd.
  injection Hd as <-. simpl.
  rewrite (get_destroyed s name id dependent its i key Hg).
  pose proof Hf as (Hi & _)%find_id_Some.
  destruct (decide (key = name)) as [->|Hk]; simpl.
  - assert (before = its) as -> by congruence.
    eexists. split; [done|].
    pose proof (length_delete its i (mk_is_Some _ _ Hi)) as Hlen.
    case_decide.
    + pose proof (length_filter (λ r : item, r !! foreignKey name ≠ Some VNull)
                    (delete i its)). split; [lia|done].
    + split; [lia|done].
  - rewrite Hgk. simpl. eexists. split; [done|].
    case_decide.
    + pose proof (length_filter (λ r : item, r !! foreignKey name ≠ Some VNull)
                    (nullify_item (foreignKey name) id <$> before)) as Hlen.
      rewrite length_fmap in Hlen. split; [lia|done].
    + rewrite length_fmap. split; [lia|done].
Qed.

(** X19.  A record of another list collection whose foreign key is
    neither the deleted [id] nor [null] is still in its collection,
    unchanged, after [destroyById], whatever [dependent] names. *)
Theorem destroyById_spares_unrelated s name id dependent key others (r : item) :
  key ≠ name →
  get key (db s) = Some (CList others) →
  r ∈ others →
  r !! foreignKey name ≠ Some (VStr id) →
  r !! foreignKey name ≠ Some VNull →
  ∃ others',
    get key (db (destroyById s name id dependent).2) = Some (CList others') ∧
    r ∈ others'.
Proof.
  intros Hk Hg Hin Hid Hnull.
  assert (nullify_item (foreignKey name) id r = r) as Hsame.
  { rewrite nullify_item_decide. by rewrite decide_False. }
  assert (r ∈ nullify_item (foreignKey name) id <$> others) as Hnulled.
  { apply list_elem_of_fmap. by exists r. }
  destruct (destroyById_other s name id dependent key others Hk Hg)
    as [Hg'|Hg']; rewrite Hg'; eexists; (split; [done|]); [done|].
  simpl. case_decide; [|done].
  by apply list_elem_of_filter.
Qed.

(** ** What every operation keeps *)

Lemma shape_cons key (c : collection) d :
  shape ((key, c) :: d) =
    (key, match c with CList _ => true | CSingle _ => false end) :: shape d.
Proof. done. Qed.

Lemma shape_put name its its' d :
  get name d = Some (CList its) → shape (put name (CList its') d) = shape d.
Proof.
  induction d as [|[key c] d IH]; [done|]. cbn [get put]. case_decide.
  - intros [= ->]. by rewrite !shape_cons.
  - intros Hg. by rewrite !shape_cons, IH.
Qed.

Lemma shape_fmap (f : string * collection → string * collection) d :
  (∀ key c, shape [f (key, c)] = shape [(key, c)]) →
  shape (f <$> d) = shape d.
Proof.
  intros Hf. induction d as [|[key c] d IH]; [done|].
  rewrite fmap_cons. specialize (Hf key c).
  destruct (f (key, c)) as [key' c']. rewrite !shape_cons in *.
  injection Hf as -> ->. by rewrite IH.
Qed.

Lemma shape_nullifyForeignKey d name id :
  shape (nullifyForeignKey d name id) = shape d.
Proof.
  apply shape_fmap. intros key c. case_decide; [done|]. by destruct c.
Qed.

Lemma shape_deleteDependents d name deps :
  shape (deleteDependents d name deps) = shape d.
Proof.
  apply shape_fmap. intros key c. case_decide; [|done]. by destruct c.
Qed.

Lemma shape_fixAllItemsIds d n : shape (fixAllItemsIds d n).1 = shape d.
Proof.
  revert n. induction d as [|[key c] d IH]; intros n; [done|].
  cbn [fixAllItemsIds]. destruct c as [its|o].
  - destruct (fixItemsIds its n) as [its' n1].
    specialize (IH n1). destruct (fixAllItemsIds d n1) as [rest n2].
    cbn [fst] in *. by rewrite !shape_cons, IH.
  - specialize (IH n). destruct (fixAllItemsIds d n) as [rest n2].
    cbn [fst] in *. by rewrite !shape_cons, IH.
Qed.

(** X20.  Construction and the three mutating methods keep the shape of
    the store: the same names, in the same order, each still a list or
    still a single record.  No call adds or drops a collection or turns
    one kind into the other. *)
Theorem shape_is_kept d n s name id (data body : item)
    (dependent : option strings_arg) :
  shape (db (constructor d n)) = shape d ∧
  shape (db (create s name data).2) = shape (db s) ∧
  shape (db (updateById s name id body).2) = shape (db s) ∧
  shape (db (destroyById s name id dependent).2) = shape (db s).
Proof.
  split_and!.
  - unfold constructor. pose proof (shape_fixAllItemsIds d n) as E.
    by destruct (fixAllItemsIds d n).
  - unfold create.
    destruct (read_data name (db s)) as [[[its|]|]|] eqn:Hg; try done.
    apply read_data_Own in Hg.
    simpl. by eapply shape_put.
  - unfold updateById.
    destruct (read_data name (db s)) as [[[its|]|]|] eqn:Hg; try done.
    apply read_data_Own in Hg.
    destruct (find_id id its) as [[i it]|]; [|done].
    simpl. by eapply shape_put.
  - unfold destroyById.
    destruct (read_data name (db s)) as [[[its|]|]|] eqn:Hg; try done.
    apply read_data_Own in Hg.
    destruct (find_id id its) as [[i it]|]; [|done].
    simpl. rewrite shape_deleteDependents, shape_nullifyForeignKey.
    by eapply shape_put.
Qed.

Lemma get_fixAllItemsIds_single d n name (single : item) :
  get name d = Some (CSingle single) →
  get name (fixAllItemsIds d n).1 = Some (CSingle single).
Proof.
  revert n. induction d as [|[key c] d IH]; intros n; simpl; [done|].
  destruct c as [its|o].
  - destruct (fixItemsIds its n) as [its' n1].
    specialize (IH n1). destruct (fixAllItemsIds d n1) as [rest n2].
    simpl in *. case_decide; [done|]. apply IH.
  - specialize (IH n). destruct (fixAllItemsIds d n) as [rest n2].
    simpl in *. case_decide; [done|]. apply IH.
Qed.

(** X21.  A single record is never touched: construction, [create],
    [updateById] and [destroyById], on whatever name and with whatever
    arguments, leave it as it was. *)
Theorem single_records_are_kept s key (single : item) n name id
    (data body : item) (dependent : option strings_arg) :
  get key (db s) = Some (CSingle single) →
  get key (db (constructor (db s) n)) = Some (CSingle single) ∧
  get key (db (create s name data).2) = Some (CSingle single) ∧
  get key (db (updateById s name id body).2) = Some (CSingle single) ∧
  get key (db (destroyById s name id dependent).2) = Some (CSingle single).
Proof.
  intros Hg. split_and!.
  - unfold constructor.
    pose proof (get_fixAllItemsIds_single (db s) n key single Hg) as E.
    by destruct (fixAllItemsIds (db s) n).
  - unfold create.
    destruct (read_data name (db s)) as [[[its|]|]|] eqn:Hn; try done.
    apply read_data_Own in Hn.
    simpl. rewrite get_put_ne; [done|]. intros ->. congruence.
  - unfold updateById.
    destruct (read_data name (db s)) as [[[its|]|]|] eqn:Hn; try done.
    apply read_data_Own in Hn.
    destruct (find_id id its) as [[i it]|]; [|done].
    simpl. rewrite get_put_ne; [done|]. intros ->. congruence.
  - unfold destroyById.
    destruct (read_data name (db s)) as [[[its|]|]|] eqn:Hn; try done.
    apply read_data_Own in Hn.
    destruct (find_id id its) as [[i it]|]; [|done].
    simpl. rewrite (get_destroyed s name id dependent its i key Hn).
    rewrite decide_False by (intros ->; congruence).
    by rewrite Hg.
Qed.

Lemma nullify_item_keeps_id fk id (it : item) :
  is_Some (it !! "id") → is_Some (nullify_item fk id it !! "id").
Proof.
  intros Hid. unfold nullify_item. destruct (strict_eq _ _); [|done].
  rewrite lookup_insert_is_Some. destruct (decide (fk = "id")); auto.
Qed.

(** X22.  Every record of every list collection has an [id] after
    construction, and [create], [updateById] and [destroyById] keep it
    so: no call leaves a record whose [id] is [undefined]. *)
Theorem ids_are_always_defined :
  (∀ d n, ids_defined (db (constructor d n))) ∧
  (∀ s name data,
     ids_defined (db s) → ids_defined (db (create s name data).2)) ∧
  (∀ s name id body,
     ids_defined (db s) → ids_defined (db (updateById s name id body).2)) ∧
  (∀ s name id dependent,
     ids_defined (db s) → ids_defined (db (destroyById s name id dependent).2)).
Proof.
  split_and!.
  - intros d n key its' Hg'.
    assert (∃ its, get key d = Some (CList its)) as [its Hg].
    { pose proof (shape_fixAllItemsIds d n) as Hs.
      unfold constructor in Hg'. destruct (fixAllItemsIds d n) as [d' n'].
      cbn [fst db] in *. clear -Hs Hg'. revert d Hs.
      induction d' as [|[k c] d' IH]; intros [|[k0 c0] d] Hs; try done.
      rewrite !shape_cons in Hs. injection Hs as -> Hc Hs.
      cbn [get] in *. case_decide.
      - destruct c0; [eauto|]. destruct c; simplify_eq.
      - eauto. }
    destruct (constructor_list d n key its Hg) as (its1 & Hg1 & Hall).
    assert (its1 = its') as -> by congruence.
    eapply Forall2_Forall_r; [exact Hall|]. apply Forall_true.
    intros it it' [_ Hid]. destruct (it !! "id") as [[]|]; try by eexists.
    destruct Hid as (m & _ & -> & _). by eexists.
  - intros s name data Hinv key its'. unfold create.
    destruct (read_data name (db s)) as [[[its|]|]|] eqn:Hg; try apply Hinv.
    apply read_data_Own in Hg. simpl.
    destruct (decide (key = name)) as [->|Hk].
    + erewrite get_put_eq by done. intros [= <-].
      apply Forall_app. split; [by eapply Hinv|].
      constructor; [|done]. rewrite lookup_union, lookup_singleton_eq.
      destruct (data !! "id"); by eexists.
    + rewrite get_put_ne by done. apply Hinv.
  - intros s name id body Hinv key its'. unfold updateById.
    destruct (read_data name (db s)) as [[[its|]|]|] eqn:Hg; try apply Hinv.
    apply read_data_Own in Hg.
    destruct (find_id id its) as [[i it]|]; [|apply Hinv]. simpl.
    destruct (decide (key = name)) as [->|Hk].
    + erewrite get_put_eq by done. intros [= <-].
      apply Forall_insert; [by eapply Hinv|].
      rewrite lookup_insert_eq. by eexists.
    + rewrite get_put_ne by done. apply Hinv.
  - intros s name id dependent Hinv key its'. unfold destroyById.
    destruct (read_data name (db s)) as [[[its|]|]|] eqn:Hg; try apply Hinv.
    apply read_data_Own in Hg.
    destruct (find_id id its) as [[i it]|]; [|apply Hinv]. simpl.
    rewrite (get_destroyed s name id dependent its i key Hg).
    assert (∀ l : list item,
      Forall (λ it : item, is_Some (it !! "id")) l →
      Forall (λ it : item, is_Some (it !! "id"))
        (if decide (key ∈ ensureArray dependent)
         then filter (λ r, r !! foreignKey name ≠ Some VNull) l else l))
      as Hfilter.
    { intros l Hl. case_decide; [by apply Forall_filter_keeps|done]. }
    destruct (decide (key = name)) as [->|Hk]; simpl.
    + intros [= <-]. apply Hfilter, Forall_delete. by eapply Hinv.
    + destruct (get key (db s)) as [[l|o]|] eqn:Hgk; simpl; [|done..].
      intros [= <-]. apply Hfilter, Forall_fmap.
      eapply Forall_impl; [by eapply Hinv|].
      intros r Hr. by apply nullify_item_keeps_id.
Qed.

(** ** Construction, once more *)

Lemma fixItemId_settled (it : item) n v :
  it !! "id" = Some v → (∀ x, v ≠ VNum x) → fixItemId it n = (it, n).
Proof.
  intros Hid Hnum. unfold fixItemId. rewrite Hid.
  destruct v; try by rewrite Hid. by destruct (Hnum n0).
Qed.

Lemma fixItemId_settles (it : item) n :
  ∃ v, (fixItemId it n).1 !! "id" = Some v ∧ ∀ x, v ≠ VNum x.
Proof.
  unfold fixItemId. destruct (it !! "id") as [v|] eqn:Hid.
  - destruct v; rewrite ?lookup_insert_eq, ?Hid; simpl;
      rewrite ?lookup_insert_eq, ?Hid; by eexists.
  - rewrite Hid. simpl. rewrite lookup_insert_eq. by eexists.
Qed.

Lemma fixItemsIds_twice its n m :
  fixItemsIds (fixItemsIds its n).1 m = ((fixItemsIds its n).1, m).
Proof.
  revert n. induction its as [|it its IH]; intros n; [done|].
  cbn [fixItemsIds].
  destruct (fixItemId_settles it n) as (v & Hv & Hnum).
  destruct (fixItemId it n) as [it' n1]. cbn [fst] in Hv.
  specialize (IH n1). destruct (fixItemsIds its n1) as [its' n2].
  cbn [fst fixItemsIds] in *.
  by rewrite (fixItemId_settled it' m v Hv Hnum), IH.
Qed.

Lemma fixAllItemsIds_twice d n m :
  fixAllItemsIds (fixAllItemsIds d n).1 m = ((fixAllItemsIds d n).1, m).
Proof.
  revert n. induction d as [|[key c] d IH]; intros n; [done|].
  cbn [fixAllItemsIds]. destruct c as [its|o].
  - pose proof (fixItemsIds_twice its n m) as Hits.
    destruct (fixItemsIds its n) as [its' n1].
    specialize (IH n1). destruct (fixAllItemsIds d n1) as [rest n2].
    cbn [fst fixAllItemsIds] in *. by rewrite Hits, IH.
  - specialize (IH n). destruct (fixAllItemsIds d n) as [rest n2].
    cbn [fst fixAllItemsIds] in *. by rewrite IH.
Qed.

(** X23.  Construction is idempotent: constructing a service on the
    store a service has already normalised changes no record and draws
    no identifier. *)
Theorem constructor_twice d n m :
  constructor (db (constructor d n)) m =
    {| db := db (constructor d n); draws := m |}.
Proof.
  unfold constructor. pose proof (fixAllItemsIds_twice d n m) as E.
  destruct (fixAllItemsIds d n) as [d' n']. cbn [fst db] in *. by rewrite E.
Qed.

Lemma fixItemsIds_draws its n :
  (fixItemsIds its n).2 =
    n + length (filter (λ it : item, it !! "id" = None) its).
Proof.
  revert n. induction its as [|it its IH]; intros n; [simpl; lia|].
  cbn [fixItemsIds]. rewrite filter_cons.
  assert ((fixItemId it n).2 =
          if decide (it !! "id" = None) then S n else n) as Hit.
  { unfold fixItemId. destruct (it !! "id") as [v|] eqn:Hid.
    - rewrite decide_False by done.
      destruct v; rewrite ?lookup_insert_eq, ?Hid; done.
    - rewrite decide_True by done. by rewrite Hid. }
  destruct (fixItemId it n) as [it' n1]. cbn [snd] in Hit. subst n1.
  specialize (IH (if decide (it !! "id" = None) then S n else n)).
  destruct (fixItemsIds its _) as [its' n2]. cbn [snd] in *.
  rewrite IH. case_decide; simpl; lia.
Qed.

Lemma missing_ids_cons key (c : collection) d :
  missing_ids ((key, c) :: d) =
    match c with
    | CList its => length (filter (λ it : item, it !! "id" = None) its)
    | CSingle _ => 0
    end + missing_ids d.
Proof. done. Qed.

(** X24.  Construction draws exactly one identifier for each record of
    a list collection that has no [id], and none for the others: the
    count of drawn identifiers grows by the number of such records. *)
Theorem constructor_draws d n : draws (constructor d n) = n + missing_ids d.
Proof.
  unfold constructor.
  assert ((fixAllItemsIds d n).2 = n + missing_ids d) as E.
  { revert n.
    induction d as [|[key c] d IH]; intros n; [simpl; unfold missing_ids; simpl; lia|].
    cbn [fixAllItemsIds]. rewrite missing_ids_cons.
    destruct c as [its|o].
    - pose proof (fixItemsIds_draws its n) as Hits.
      destruct (fixItemsIds its n) as [its' n1]. cbn [snd] in Hits.
      specialize (IH n1). destruct (fixAllItemsIds d n1) as [rest n2].
      cbn [snd] in *. lia.
    - specialize (IH n). destruct (fixAllItemsIds d n) as [rest n2].
      cbn [snd] in *. lia. }
  by destruct (fixAllItemsIds d n).
Qed.

(** ** The form of generated identifiers *)

Lemma hex_digit_is_hex (x : N) : is_hex_char (hex_digit x) = true.
Proof.
  unfold hex_digit. generalize (N.to_nat x). intros n.
  do 17 (try (destruct n as [|n]; [reflexivity|])). reflexivity.
Qed.

Lemma hex_digit_inj (x y : N) :
  (x < 16)%N → (y < 16)%N → hex_digit x = hex_digit y → x = y.
Proof.
  intros Hx Hy E. apply N2Nat.inj. unfold hex_digit in E.
  assert (N.to_nat x < 16)%nat as Hn by lia.
  assert (N.to_nat y < 16)%nat as Hn' by lia.
  revert E Hn Hn'. generalize (N.to_nat x) (N.to_nat y). intros n n'.
  do 16 (destruct n as [|n]; [
    do 16 (destruct n' as [|n']; [simpl; intros; first [done|discriminate]|]);
    intros; lia|]).
  intros; lia.
Qed.

Lemma byte_hex_inj b b' : byte_hex b = byte_hex b' → b = b'.
Proof.
  unfold byte_hex. intros [= Hq Hr].
  pose proof (Byte.to_N_bounded b) as Hb.
  pose proof (Byte.to_N_bounded b') as Hb'.
  apply hex_digit_inj in Hq; [|apply N.Div0.div_lt_upper_bound; lia..].
  apply hex_digit_inj in Hr; [|apply N.mod_lt; lia..].
  assert (Byte.to_N b = Byte.to_N b') as E.
  { rewrite (N.div_mod (Byte.to_N b) 16), (N.div_mod (Byte.to_N b') 16) by lia.
    by rewrite Hq, Hr. }
  pose proof (Byte.of_to_N b) as H1. rewrite E, Byte.of_to_N in H1.
  by injection H1.
Qed.

(** X25.  A generated identifier is four characters long, each one of
    [0123456789abcdef]; and two draws give the same identifier exactly
    when they gave the same two octets. *)
Theorem randomId_is_four_hex_digits m n :
  (∃ c1 c2 c3 c4,
     randomId m = String c1 (String c2 (String c3 (String c4 EmptyString))) ∧
     is_hex_char c1 = true ∧ is_hex_char c2 = true ∧
     is_hex_char c3 = true ∧ is_hex_char c4 = true) ∧
  (randomId m = randomId n ↔ randomBytes2 m = randomBytes2 n).
Proof.
  unfold randomId. split.
  - destruct (randomBytes2 m) as [b0 b1]. unfold byte_hex. simpl.
    do 4 eexists. split; [done|]. split_and!; apply hex_digit_is_hex.
  - destruct (randomBytes2 m) as [b0 b1], (randomBytes2 n) as [b0' b1'].
    split; [|by intros [= -> ->]].
    unfold byte_hex at 1 3. simpl. intros [= H0 H0' H1].
    f_equal; apply byte_hex_inj; unfold byte_hex; congruence.
Qed.

(** ** The type guards *)

(** [isCondition] holds of exactly the six values of the enumeration:
    [lt], [lte], [gt], [gte], [ne] and the empty string of [default]. *)
Lemma isCondition_values (value : string) :
  isCondition value = true ↔ ∃ c, value = Condition.to_string c.
Proof.
  unfold isCondition. rewrite bool_decide_eq_true.
  unfold Condition.values. rewrite list_elem_of_fmap. split.
  - intros (c & -> & _). by exists c.
  - intros [c ->]. exists c. split; [done|].
    destruct c; repeat first [apply list_elem_of_here | apply list_elem_of_further].
Qed.

Lemma lookup_store_json d name :
  match store_json d with
  | VObj o => o !! name = collection_json <$> get name d
  | _ => False
  end.
Proof.
  unfold store_json. induction d as [|[key c] d IH]; [done|].
  rewrite fmap_cons. cbn [prod_map fst snd id get list_to_map foldr uncurry].
  rewrite lookup_insert. case_decide; [done|]. apply IH.
Qed.

Lemma isItemArray_collection (c : collection) :
  isItemArray (collection_json c) = true ↔ ∃ its, c = CList its.
Proof.
  destruct c as [its|o]; simpl.
  - split; [by eexists|]. intros _. by induction its.
  - split; [done|]. by intros [? ?].
Qed.

(** X26.  [isData] holds of a store, taken as the JSON value it is
    read from, exactly when every collection in it is a list: a store
    with a single record under some name is not [isData]. *)
Theorem isData_iff_all_lists d :
  isData (Some (store_json d)) = true ↔
  ∀ name c, get name d = Some c → ∃ its, c = CList its.
Proof.
  pose proof (lookup_store_json d) as Hlook.
  destruct (store_json d) as [| | | | |o] eqn:E; try done.
  simpl. rewrite bool_decide_eq_true, map_Forall_lookup. split.
  - intros Hall name c Hg. apply isItemArray_collection.
    apply (Hall name). by rewrite Hlook, Hg.
  - intros Hall name v Hv. rewrite Hlook in Hv.
    destruct (get name d) as [c|] eqn:Hg; [|done].
    injection Hv as <-. apply isItemArray_collection. by eapply Hall.
Qed.

(** ** The query of [GET /:name] *)

Section AppProperties.
Variable parseInt : string → number.
Variable isNaN : number → bool.

(** X27.  Whatever [req.query] holds, the query handed to [find] never
    holds [NaN]: a number appears only under one of the five numeric
    names, as the [parseInt] of the string received; a string under one
    of those names that does not parse is dropped; every other
    parameter, and every list of strings, is handed on as received. *)
Theorem parse_query_never_passes_NaN (raw : gmap string strings_arg) key :
  match q_params (parse_query parseInt isNaN raw) !! key with
  | Some (QNum x) =>
      isNaN x = false ∧ key ∈ numeric_params ∧
      ∃ str, raw !! key = Some (One str) ∧ x = parseInt str
  | Some (QStr str) => raw !! key = Some (One str) ∧ key ∉ numeric_params
  | Some (QStrs l) => raw !! key = Some (Many l)
  | None =>
      raw !! key = None ∨
      ∃ str, raw !! key = Some (One str) ∧ key ∈ numeric_params ∧
             isNaN (parseInt str) = true
  end.
Proof.
  unfold parse_query. cbn [q_params]. rewrite map_lookup_imap.
  destruct (raw !! key) as [[str|l]|]; simpl; [| done | by left].
  case_bool_decide.
  - destruct (isNaN (parseInt str)) eqn:E; simpl; [right|]; eauto.
  - done.
Qed.

End AppProperties.

(** ** [Observer] *)

(** An observer is transparent: [read] and [write] complete as the
    adapter's [read] and [write] do and leave the adapter in the state
    the adapter's own call leaves it in, whatever the callbacks; and
    with the callbacks an observer starts with, nothing else changes. *)
Lemma observer_is_transparent {T F C : Type}
    (ob : observer T F C) (a : adapter T F) (arg : T) (c : C) (f : F) :
  (observer_read ob c f).1 = (adapter_read (obs_adapter ob) f).1 ∧
  (observer_read ob c f).2.2 = (adapter_read (obs_adapter ob) f).2 ∧
  (observer_write ob arg c f).1 = (adapter_write (obs_adapter ob) arg f).1 ∧
  (observer_write ob arg c f).2.2 = (adapter_write (obs_adapter ob) arg f).2 ∧
  (observer_read (new_observer a) c f).2.1 = c ∧
  (observer_write (new_observer a) arg c f).2.1 = c.
Proof.
  unfold observer_read, observer_write, new_observer. simpl.
  destruct (adapter_read (obs_adapter ob) f) as [[data|] f1],
           (adapter_write (obs_adapter ob) arg f) as [[[]|] f2],
           (adapter_read a f) as [[data'|] f3],
           (adapter_write a arg f) as [[[]|] f4]; done.
Qed.

(** X28.  With the callbacks of the command-line program, the flag
    [writing] is down after a write that succeeded and up after a write
    that failed, whatever it was before; a read never moves it; so
    after a failed write the file watcher reads no change. *)
Theorem failed_write_leaves_flag_up {T F : Type}
    (a : adapter T F) (arg : T) (writing : bool) (f f' : F) :
  (observer_write (watching_observer a) arg writing f).2.1 =
    match (adapter_write a arg f).1 with
    | Normal _ => false
    | Throw => true
    end ∧
  (observer_read (watching_observer a) writing f').2.1 = writing ∧
  ((adapter_write a arg f).1 = Throw →
   reads_on_change
     (observer_read (watching_observer a)
        (observer_write (watching_observer a) arg writing f).2.1 f').2.1
   = false).
Proof.
  unfold observer_write, observer_read, watching_observer, reads_on_change.
  simpl.
  destruct (adapter_write a arg f) as [[[]|] f2],
           (adapter_read a f') as [[data|] f3]; done.
Qed.

End Properties.

(** * The service on the test data *)

Section Evaluation.
#[local] Existing Instance test_runtime.

Ltac evaluate := reflexivity.

(** ** What [find] does with filters, pages and sort keys *)

(** C2.  On the posts with views 100, 200 and 300, [find] with
    [{ views_lt: '300' }] returns all three records, the third
    included: the filter is not applied, where [service.test.ts]
    expects the first two. *)
Theorem find_returns_unfiltered :
  find views_service "posts" views_lt_query = Normal (FItems posts3) ∧
  find views_service "posts" views_lt_query ≠
    Normal (FItems [short_post "1" 100; short_post "2" 200]).
Proof.
  assert (E : find views_service "posts" views_lt_query = Normal (FItems posts3))
    by evaluate.
  split; [exact E|]. rewrite E. unfold posts3. intros [=].
Qed.

(** C3.  On the same three posts, [find] with [{ _page: 1, _per_page: 2 }]
    returns the plain list of all three records and no [PaginatedItems],
    where [service.test.ts] expects the first page of two. *)
Theorem find_returns_unpaginated :
  find views_service "posts" page_query = Normal (FItems posts3) ∧
  find views_service "posts" page_query ≠ Normal (FPaginated first_page).
Proof.
  split; [evaluate|]. apply find_never_paginates.
Qed.

(** C4.  On two posts stored with views 200 then 100, [find] with
    [{ _sort: 'views' }] returns them in the stored order, 200 before
    100, and not in ascending order of [views]. *)
Theorem find_returns_unsorted :
  find unsorted_service "posts" sort_query =
    Normal (FItems [short_post "1" 200; short_post "2" 100]) ∧
  find unsorted_service "posts" sort_query ≠
    Normal (FItems [short_post "2" 100; short_post "1" 200]).
Proof.
  assert (E : find unsorted_service "posts" sort_query =
              Normal (FItems [short_post "1" 200; short_post "2" 100]))
    by evaluate.
  split; [exact E|]. rewrite E. intros Heq.
  apply (f_equal (λ c, match c with
                       | Normal (FItems (r :: _)) => r !! "id"
                       | _ => None
                       end)) in Heq.
  vm_compute in Heq. discriminate.
Qed.

(** ** What [find] does with a name the store inherits *)

(** C9.  [toString] is not a key of the test store, and [has] says so.
    [find] with that name does not return [undefined]: it returns the
    function that the store, like every object, inherits under that
    name. *)
Theorem find_returns_inherited_member :
  has views_service "toString" = false ∧
  find views_service "toString" {| q_embed := None; q_params := ∅ |} =
    Normal (FInherited "toString") ∧
  find views_service "toString" {| q_embed := None; q_params := ∅ |} ≠
    Normal FUndefined.
Proof.
  assert (E : find views_service "toString"
                {| q_embed := None; q_params := ∅ |} =
              Normal (FInherited "toString")) by evaluate.
  split; [evaluate|]. split; [exact E|]. rewrite E. intros [=].
Qed.

(** ** Where the code departs from the text *)

(** Against C1 as written: [create] with a body that has an [id]
    returns a record with that [id], not with the identifier it drew. *)
Lemma create_keeps_supplied_id :
  ∃ it s',
    create views_service "posts" body_with_id = (Some it, s') ∧
    it !! "id" = Some (VStr "abc") ∧
    it !! "id" ≠ Some (VStr (randomId (draws views_service))).
Proof.
  eexists _, _. split; [apply create_list; evaluate|].
  split; [evaluate|]. vm_compute. discriminate.
Qed.

(** Against C6 as written: construction leaves an [id] that is [null]
    and an [id] that is the empty string as they are, so records without
    a non-empty string [id] remain; and the two records that had no [id]
    receive the same identifier when the random source repeats itself. *)
Lemma constructor_leaves_unusable_ids :
  ∃ r0 r1 r2 r3 r4,
    get "posts" (db (constructor loose_ids_store 0)) =
      Some (CList [r0; r1; r2; r3; r4]) ∧
    r0 !! "id" = Some VNull ∧
    r1 !! "id" = Some (VStr "") ∧
    r2 !! "id" = r3 !! "id" ∧
    ¬ Forall has_string_id [r0; r1; r2; r3; r4].
Proof.
  do 5 eexists. split; [evaluate|]. split_and!; [evaluate..|].
  intros Hall. apply Forall_cons in Hall as [(sid & Hid & _) _].
  vm_compute in Hid. discriminate.
Qed.


(** ** The theorems at work on the test data *)

Lemma create_mints_id_witness :
  get "posts" (db views_service) = Some (CList posts3) ∧
  new_post !! "id" = None ∧
  ∃ it s',
    create views_service "posts" new_post = (Some it, s') ∧
    it !! "id" = Some (VStr "c0de") ∧
    it !! "title" = Some (VStr "x") ∧
    get "posts" (db s') = Some (CList (posts3 ++ [it])).
Proof.
  assert (H1 : get "posts" (db views_service) = Some (CList posts3)) by evaluate.
  assert (H2 : new_post !! "id" = None) by evaluate.
  split; [exact H1|]. split; [exact H2|].
  destruct (create_mints_id views_service "posts" new_post posts3 H1 H2)
    as (it & s' & Hc & Hid & _ & _ & Hk & Hg & _).
  exists it, s'. split; [exact Hc|]. split; [|split; [|exact Hg]].
  - rewrite Hid. evaluate.
  - rewrite Hk by discriminate. evaluate.
Defined.

Lemma updateById_keeps_id_witness :
  get "posts" (db views_service) = Some (CList posts3) ∧
  posts3 !! 2 = Some (short_post "3" 300) ∧
  short_post "3" 300 !! "id" = Some (VStr "3") ∧
  ∃ nextItem s',
    updateById views_service "posts" "3" update_body = (Some nextItem, s') ∧
    nextItem !! "id" = Some (VStr "3") ∧
    nextItem !! "title" = Some (VStr "y") ∧
    nextItem !! "views" = Some (VNum 300%Z) ∧
    get "posts" (db s') =
      Some (CList [short_post "1" 100; short_post "2" 200; nextItem]) ∧
    get "comments" (db s') = Some (CList [comment1]).
Proof.
  assert (H1 : get "posts" (db views_service) = Some (CList posts3)) by evaluate.
  assert (H2 : posts3 !! 2 = Some (short_post "3" 300)) by evaluate.
  assert (H3 : short_post "3" 300 !! "id" = Some (VStr "3")) by evaluate.
  split; [exact H1|]. split; [exact H2|]. split; [exact H3|].
  destruct (updateById_keeps_id views_service "posts" "3" update_body
              posts3 2 (short_post "3" 300) H1 H2 H3)
    as (i & it & nextItem & s' & Hi & Hit & Hfirst & Hij & Hu & _ & _ & Hid
        & Hk & Hg & _ & _ & Hother & _).
  assert (i = 2 ∧ it = short_post "3" 300) as [-> ->].
  { destruct i as [|[|[|i]]]; [| |by injection Hi as <-|lia];
      injection Hi as <-; discriminate Hit. }
  exists nextItem, s'. split; [exact Hu|]. split; [exact Hid|].
  split; [|split; [|split; [exact Hg|]]].
  - rewrite Hk by discriminate. evaluate.
  - rewrite Hk by discriminate. evaluate.
  - rewrite Hother by discriminate. evaluate.
Defined.


Lemma constructor_normalises_ids_witness :
  get "posts" loose_ids_store =
    Some (CList [ {[ "id" := VNull ]}; {[ "id" := VStr "" ]};
                  {[ "title" := VStr "a" ]}; {[ "title" := VStr "b" ]};
                  {[ "id" := VNum 7%Z ]} ]) ∧
  ∃ its',
    get "posts" (db (constructor loose_ids_store 0)) = Some (CList its') ∧
    length its' = 5 ∧
    (∀ r, its' !! 4 = Some r → r !! "id" = Some (VStr "7")).
Proof.
  split; [evaluate|].
  destruct (constructor_normalises_ids loose_ids_store 0 "posts" _ eq_refl)
    as (its' & Hg & Hall).
  exists its'. split; [exact Hg|]. split.
  - symmetry. apply (Forall2_length _ _ _ Hall).
  - intros r Hr.
    destruct (Forall2_lookup_r _ _ _ 4 r Hall Hr) as (r0 & Hr0 & _ & Hid).
    injection Hr0 as <-. exact Hid.
Defined.


Lemma numeric_foreign_key_never_matches_witness :
  numeric_fk_comment !! foreignKey "posts" = Some (VNum 1%Z) ∧
  (∃ comments' child',
     get "comments" (db (constructor numeric_fk_store 0)) = Some (CList comments') ∧
     comments' !! 0 = Some child' ∧
     child' !! "postId" = Some (VNum 1%Z)) ∧
  (∃ embedded,
     embed (db (constructor numeric_fk_store 0)) "posts" {[ "id" := VStr "1" ]}
       "comments" =
       Normal (<["comments" := VArr (VObj <$> embedded)]> {[ "id" := VStr "1" ]}) ∧
     numeric_fk_comment ∉ embedded) ∧
  (∃ comments',
     get "comments"
       (db (destroyById (constructor numeric_fk_store 0) "posts" "1"
              (Some (One "comments"))).2) = Some (CList comments') ∧
     numeric_fk_comment ∈ comments').
Proof.
  assert (H1 : numeric_fk_comment !! foreignKey "posts" = Some (VNum 1%Z))
    by evaluate.
  destruct (numeric_foreign_key_never_matches "posts" "1" numeric_fk_comment
              1%Z H1) as (Hload & Hembed & Hdestroy).
  split; [exact H1|]. split; [|split].
  - eapply (Hload numeric_fk_store 0 "comments" _ 0); evaluate.
  - eapply (Hembed (db (constructor numeric_fk_store 0))); evaluate.
  - eapply (Hdestroy (constructor numeric_fk_store 0) _ "comments");
      [discriminate|evaluate|].
    apply list_elem_of_here.
Defined.

(** The embedding examples of [service.test.ts]: the first post comes
    back with its comment, the second with none. *)
Example findById_embeds_comments :
  findById views_service "posts" "1" (Some (Many ["comments"])) =
    Normal (Some (<["comments" := VArr [VObj comment1]]> (short_post "1" 100))) ∧
  findById views_service "posts" "2" (Some (Many ["comments"])) =
    Normal (Some (<["comments" := VArr []]> (short_post "2" 200))).
Proof. split; evaluate. Qed.

(** ** The further properties at work on the test data *)

Lemma not_an_own_key_witness :
  has views_service "xxx" = false ∧
  has views_service "valueOf" = false ∧
  (find views_service "xxx" views_lt_query = Normal FUndefined ∧
   findById views_service "xxx" "1" (Some (One "comments")) = Normal None ∧
   create views_service "xxx" new_post = (None, views_service) ∧
   updateById views_service "xxx" "1" update_body = (None, views_service) ∧
   destroyById views_service "xxx" "1" (Some (One "comments")) =
     (None, views_service)) ∧
  (find views_service "valueOf" views_lt_query = Normal (FInherited "valueOf") ∧
   findById views_service "valueOf" "1" None = Normal None ∧
   create views_service "valueOf" new_post = (None, views_service) ∧
   updateById views_service "valueOf" "1" update_body = (None, views_service) ∧
   destroyById views_service "valueOf" "1" None = (None, views_service)).
Proof.
  assert (H1 : has views_service "xxx" = false) by reflexivity.
  assert (H2 : has views_service "valueOf" = false) by reflexivity.
  split; [exact H1|]. split; [exact H2|]. split.
  - exact (not_an_own_key views_service "xxx" views_lt_query "1"
             (Some (One "comments")) (Some (One "comments")) new_post
             update_body H1).
  - exact (not_an_own_key views_service "valueOf" views_lt_query "1"
             None None new_post update_body H2).
Defined.

Lemma unknown_id_is_undefined_witness :
  get "posts" (db views_service) = Some (CList posts3) ∧
  Forall (λ r : item, r !! "id" ≠ Some (VStr "9")) posts3 ∧
  (findById views_service "posts" "9" (Some (One "object")) = Normal None ∧
   updateById views_service "posts" "9" update_body = (None, views_service) ∧
   destroyById views_service "posts" "9" (Some (One "comments")) =
     (None, views_service)).
Proof.
  assert (H1 : get "posts" (db views_service) = Some (CList posts3))
    by reflexivity.
  assert (H2 : Forall (λ r : item, r !! "id" ≠ Some (VStr "9")) posts3)
    by (apply find_id_None; reflexivity).
  split; [exact H1|]. split; [exact H2|].
  exact (unknown_id_is_undefined views_service "posts" "9"
           (Some (One "object")) (Some (One "comments")) update_body posts3 H1 H2).
Defined.

Lemma single_record_is_not_a_list_witness :
  get "object" (db views_service) = Some (CSingle obj) ∧
  (find views_service "object" views_lt_query = Normal (FItem obj) ∧
   findById views_service "object" "1" (Some (One "object")) = Normal None ∧
   create views_service "object" new_post = (None, views_service) ∧
   updateById views_service "object" "1" update_body = (None, views_service) ∧
   destroyById views_service "object" "1" None = (None, views_service)).
Proof.
  assert (H1 : get "object" (db views_service) = Some (CSingle obj))
    by reflexivity.
  split; [exact H1|].
  exact (single_record_is_not_a_list views_service "object" obj views_lt_query
           "1" (Some (One "object")) None new_post update_body H1).
Defined.

Lemma find_throws_iff_witness :
  find views_service "posts" {| q_embed := Some (One "object"); q_params := ∅ |}
    = Throw ∧
  find views_service "posts" {| q_embed := Some (One "toString"); q_params := ∅ |}
    = Throw ∧
  find views_service "posts" {| q_embed := Some (One "comments"); q_params := ∅ |}
    ≠ Throw.
Proof.
  split; [|split].
  - apply find_throws_iff. exists posts3. split; [reflexivity|].
    split; [unfold posts3; discriminate|].
    exists "object". split; [apply list_elem_of_here|reflexivity].
  - apply find_throws_iff. exists posts3. split; [reflexivity|].
    split; [unfold posts3; discriminate|].
    exists "toString". split; [apply list_elem_of_here|reflexivity].
  - intros (its & _ & _ & related & Hin & Hsingle)%find_throws_iff.
    apply list_elem_of_singleton in Hin as ->. discriminate Hsingle.
Defined.

Lemma findById_throws_iff_witness :
  findById views_service "posts" "2" (Some (One "object")) = Throw ∧
  findById views_service "posts" "2" (Some (One "constructor")) = Throw ∧
  findById views_service "posts" "2" (Some (One "comments")) ≠ Throw ∧
  findById views_service "posts" "9" (Some (One "object")) ≠ Throw.
Proof.
  split; [|split; [|split]].
  - apply findById_throws_iff. exists posts3, 1, (short_post "2" 200).
    split; [reflexivity|]. split; [reflexivity|].
    exists "object". split; [apply list_elem_of_here|reflexivity].
  - apply findById_throws_iff. exists posts3, 1, (short_post "2" 200).
    split; [reflexivity|]. split; [reflexivity|].
    exists "constructor". split; [apply list_elem_of_here|reflexivity].
  - intros (its & i & it & _ & _ & related & Hin & Hsingle)%findById_throws_iff.
    apply list_elem_of_singleton in Hin as ->. discriminate Hsingle.
  - intros (its & i & it & Hg & Hf & _)%findById_throws_iff.
    assert (get "posts" (db views_service) = Some (CList posts3)) as Hg'
      by reflexivity.
    rewrite Hg' in Hg. injection Hg as <-. discriminate Hf.
Defined.

Lemma find_embeds_in_place_witness :
  get "posts" (db views_service) = Some (CList posts3) ∧
  Forall (λ r, not_a_list (db views_service) r = false)
    (ensureArray (Some (Many ["comments"; "tags"]))) ∧
  ∃ its',
    find views_service "posts"
      {| q_embed := Some (Many ["comments"; "tags"]); q_params := ∅ |}
      = Normal (FItems its') ∧
    length its' = 3 ∧
    Forall2 (λ it it' : item, it' !! "views" = it !! "views") posts3 its'.
Proof.
  assert (H1 : get "posts" (db views_service) = Some (CList posts3))
    by reflexivity.
  assert (H2 : Forall (λ r, not_a_list (db views_service) r = false)
                 (ensureArray (Some (Many ["comments"; "tags"]))))
    by (repeat constructor).
  split; [exact H1|]. split; [exact H2|].
  destruct (find_embeds_in_place views_service "posts"
              {| q_embed := Some (Many ["comments"; "tags"]); q_params := ∅ |}
              posts3 H1 H2) as (its' & Hfind & Hlen & Hall).
  exists its'. split; [exact Hfind|]. split; [exact Hlen|].
  eapply Forall2_impl; [exact Hall|]. intros it it' Hk. apply Hk.
  cbn [ensureArray q_embed]. intros Hin.
  apply elem_of_cons in Hin as [Hin|Hin]; [discriminate Hin|].
  apply list_elem_of_singleton in Hin. discriminate Hin.
Defined.

Lemma findById_agrees_with_find_witness :
  get "posts" (db views_service) = Some (CList posts3) ∧
  find views_service "posts"
    {| q_embed := Some (One "comments"); q_params := ∅ |} =
    Normal (FItems [<["comments" := VArr [VObj comment1]]> (short_post "1" 100);
                    <["comments" := VArr []]> (short_post "2" 200);
                    <["comments" := VArr []]> (short_post "3" 300)]) ∧
  findById views_service "posts" "2" (Some (One "comments")) =
    Normal (Some (<["comments" := VArr []]> (short_post "2" 200))).
Proof.
  assert (H1 : get "posts" (db views_service) = Some (CList posts3))
    by reflexivity.
  assert (H2 : find views_service "posts"
                 {| q_embed := Some (One "comments"); q_params := ∅ |} =
               Normal (FItems
                 [<["comments" := VArr [VObj comment1]]> (short_post "1" 100);
                  <["comments" := VArr []]> (short_post "2" 200);
                  <["comments" := VArr []]> (short_post "3" 300)]))
    by reflexivity.
  split; [exact H1|]. split; [exact H2|].
  exact (findById_agrees_with_find views_service "posts" "2"
           (Some (One "comments")) ∅ posts3 _ H1 H2).
Defined.

Lemma embed_order_is_irrelevant_witness :
  "comments" ≠ "posts" ∧ "comments" ≠ "id" ∧ "posts" ≠ "id" ∧
  findById views_service "posts" "1" (Some (Many ["comments"; "posts"])) =
    Normal (Some (<["posts" := VArr []]>
                    (<["comments" := VArr [VObj comment1]]> (short_post "1" 100)))) ∧
  findById views_service "posts" "1" (Some (Many ["posts"; "comments"])) =
    Normal (Some (<["posts" := VArr []]>
                    (<["comments" := VArr [VObj comment1]]> (short_post "1" 100)))) ∧
  find views_service "posts"
    {| q_embed := Some (Many ["comments"; "posts"]); q_params := ∅ |} =
    Normal (FItems
      [<["posts" := VArr []]>
         (<["comments" := VArr [VObj comment1]]> (short_post "1" 100));
       <["posts" := VArr []]> (<["comments" := VArr []]> (short_post "2" 200));
       <["posts" := VArr []]> (<["comments" := VArr []]> (short_post "3" 300))]) ∧
  find views_service "posts"
    {| q_embed := Some (Many ["posts"; "comments"]); q_params := ∅ |} =
    Normal (FItems
      [<["posts" := VArr []]>
         (<["comments" := VArr [VObj comment1]]> (short_post "1" 100));
       <["posts" := VArr []]> (<["comments" := VArr []]> (short_post "2" 200));
       <["posts" := VArr []]> (<["comments" := VArr []]> (short_post "3" 300))]).
Proof.
  assert (H1 : "comments" ≠ "posts") by discriminate.
  assert (H2 : "comments" ≠ "id") by discriminate.
  assert (H3 : "posts" ≠ "id") by discriminate.
  split; [exact H1|]. split; [exact H2|]. split; [exact H3|].
  destruct (embed_order_is_irrelevant views_service "posts" "1"
              "comments" "posts" ∅ H1 H2 H3) as [EfindById Efind].
  split; [reflexivity|]. split; [rewrite <-EfindById; reflexivity|].
  split; [reflexivity|]. rewrite <-Efind. reflexivity.
Defined.

Lemma embed_twice_is_once_witness :
  "comments" ≠ "id" ∧
  findById views_service "posts" "1" (Some (Many ["comments"; "comments"])) =
    findById views_service "posts" "1" (Some (One "comments")) ∧
  find views_service "posts"
    {| q_embed := Some (Many ["comments"; "comments"]); q_params := ∅ |} =
  find views_service "posts"
    {| q_embed := Some (One "comments"); q_params := ∅ |}.
Proof.
  assert (H1 : "comments" ≠ "id") by discriminate.
  split; [exact H1|].
  exact (embed_twice_is_once views_service "posts" "1" "comments" ∅ H1).
Defined.

Lemma create_keeps_data_with_id_witness :
  get "posts" (db views_service) = Some (CList posts3) ∧
  is_Some (colliding_post !! "id") ∧
  create views_service "posts" colliding_post =
    (Some colliding_post,
     {| db := put "posts" (CList (posts3 ++ [colliding_post])) (db views_service);
        draws := S (draws views_service) |}).
Proof.
  assert (H1 : get "posts" (db views_service) = Some (CList posts3))
    by reflexivity.
  assert (H2 : is_Some (colliding_post !! "id"))
    by (exists (VStr "1"); reflexivity).
  split; [exact H1|]. split; [exact H2|].
  exact (create_keeps_data_with_id views_service "posts" colliding_post posts3 H1 H2).
Defined.

Lemma created_record_is_found_witness :
  ∃ it s',
    get "posts" (db views_service) = Some (CList posts3) ∧
    create views_service "posts" new_post = (Some it, s') ∧
    it !! "id" = Some (VStr "c0de") ∧
    Forall (λ r : item, r !! "id" ≠ Some (VStr "c0de")) posts3 ∧
    findById s' "posts" "c0de" None = Normal (Some it).
Proof.
  assert (H1 : get "posts" (db views_service) = Some (CList posts3))
    by reflexivity.
  pose proof (create_list views_service "posts" new_post posts3 H1) as H2.
  assert (H3 : (new_post ∪ {[ "id" := VStr (randomId (draws views_service)) ]} : item)
                 !! "id" = Some (VStr "c0de")) by reflexivity.
  assert (H4 : Forall (λ r : item, r !! "id" ≠ Some (VStr "c0de")) posts3)
    by (apply find_id_None; reflexivity).
  eexists _, _. split; [exact H1|]. split; [exact H2|].
  split; [exact H3|]. split; [exact H4|].
  exact (created_record_is_found views_service "posts" new_post posts3
           _ _ "c0de" H1 H2 H3 H4).
Defined.

Lemma create_never_shadows_witness :
  get "posts" (db views_service) = Some (CList posts3) ∧
  create views_service "posts" colliding_post =
    (Some colliding_post,
     {| db := put "posts" (CList (posts3 ++ [colliding_post])) (db views_service);
        draws := S (draws views_service) |}) ∧
  find_id "1" posts3 = Some (0, short_post "1" 100) ∧
  findById (create views_service "posts" colliding_post).2 "posts" "1" None =
    Normal (Some (short_post "1" 100)).
Proof.
  assert (H1 : get "posts" (db views_service) = Some (CList posts3))
    by reflexivity.
  assert (H2 : create views_service "posts" colliding_post =
    (Some colliding_post,
     {| db := put "posts" (CList (posts3 ++ [colliding_post])) (db views_service);
        draws := S (draws views_service) |})) by reflexivity.
  assert (H3 : find_id "1" posts3 = Some (0, short_post "1" 100)) by reflexivity.
  split; [exact H1|]. split; [exact H2|]. split; [exact H3|].
  rewrite H2.
  exact (proj2 (create_never_shadows views_service "posts" colliding_post posts3
                  _ _ "1" 0 (short_post "1" 100) H1 H2 H3)).
Defined.

Lemma updated_record_is_found_witness :
  ∃ r s',
    get "posts" (db views_service) = Some (CList posts3) ∧
    find_id "1" posts3 = Some (0, short_post "1" 100) ∧
    updateById views_service "posts" "1" update_body = (Some r, s') ∧
    r !! "title" = Some (VStr "y") ∧
    findById s' "posts" "1" None = Normal (Some r).
Proof.
  assert (H1 : get "posts" (db views_service) = Some (CList posts3))
    by reflexivity.
  assert (H2 : find_id "1" posts3 = Some (0, short_post "1" 100)) by reflexivity.
  pose proof (updateById_found views_service "posts" "1" update_body posts3
                0 (short_post "1" 100) H1 H2) as H3.
  eexists _, _. split; [exact H1|]. split; [exact H2|]. split; [exact H3|].
  split; [reflexivity|].
  exact (updated_record_is_found views_service "posts" "1" update_body posts3
           0 (short_post "1" 100) _ _ H1 H2 H3).
Defined.

Lemma updateById_empty_body_witness :
  get "posts" (db views_service) = Some (CList posts3) ∧
  find_id "2" posts3 = Some (1, short_post "2" 200) ∧
  updateById views_service "posts" "2" ∅ = (Some (short_post "2" 200), views_service).
Proof.
  assert (H1 : get "posts" (db views_service) = Some (CList posts3))
    by reflexivity.
  assert (H2 : find_id "2" posts3 = Some (1, short_post "2" 200)) by reflexivity.
  split; [exact H1|]. split; [exact H2|].
  exact (updateById_empty_body views_service "posts" "2" posts3 1
           (short_post "2" 200) H1 H2).
Defined.

Lemma updateById_twice_witness :
  get "posts" (db views_service) = Some (CList posts3) ∧
  find_id "1" posts3 = Some (0, short_post "1" 100) ∧
  updateById (updateById views_service "posts" "1" update_body).2
    "posts" "1" update_body =
  updateById views_service "posts" "1" update_body.
Proof.
  assert (H1 : get "posts" (db views_service) = Some (CList posts3))
    by reflexivity.
  assert (H2 : find_id "1" posts3 = Some (0, short_post "1" 100)) by reflexivity.
  split; [exact H1|]. split; [exact H2|].
  exact (updateById_twice views_service "posts" "1" update_body posts3 0
           (short_post "1" 100) H1 H2).
Defined.

Lemma updateById_keeps_id_column_witness :
  get "posts" (db views_service) = Some (CList posts3) ∧
  ∃ its',
    get "posts" (db (updateById views_service "posts" "1" update_body).2) =
      Some (CList its') ∧
    (λ r : item, r !! "id") <$> its' =
      [Some (VStr "1"); Some (VStr "2"); Some (VStr "3")].
Proof.
  assert (H1 : get "posts" (db views_service) = Some (CList posts3))
    by reflexivity.
  split; [exact H1|].
  destruct (updateById_keeps_id_column views_service "posts" "1" update_body
              posts3 H1) as (its' & Hg & Hids).
  exists its'. split; [exact Hg|]. rewrite Hids. reflexivity.
Defined.

Lemma destroyById_leaves_no_reference_witness :
  ∃ s',
    destroyById cascade_service "posts" "1" None =
      (Some (short_post "1" 100), s') ∧
    "comments" ≠ "posts" ∧
    get "comments" (db s') =
      Some (CList [<["postId" := VNull]> comment1; comment2; orphan_comment]) ∧
    Forall (λ r : item, r !! foreignKey "posts" ≠ Some (VStr "1"))
      [<["postId" := VNull]> comment1; comment2; orphan_comment].
Proof.
  assert (H0 : get "posts" (db cascade_service) = Some (CList posts3))
    by reflexivity.
  assert (Hf : find_id "1" posts3 = Some (0, short_post "1" 100)) by reflexivity.
  pose proof (destroyById_found cascade_service "posts" "1" None posts3 0
                (short_post "1" 100) H0 Hf) as H1.
  assert (H2 : "comments" ≠ "posts") by discriminate.
  eexists. split; [exact H1|]. split; [exact H2|].
  assert (H3 : get "comments"
                 (db {| db := deleteDependents
                                (nullifyForeignKey
                                   (put "posts" (CList (delete 0 posts3))
                                      (db cascade_service)) "posts" "1")
                                "posts" (ensureArray None);
                        draws := draws cascade_service |}) =
               Some (CList [<["postId" := VNull]> comment1; comment2;
                            orphan_comment])) by reflexivity.
  split; [exact H3|].
  exact (destroyById_leaves_no_reference cascade_service "posts" "1" None
           _ _ H1 "comments" _ H2 H3).
Defined.

Lemma destroyed_record_is_gone_witness :
  get "posts" (db cascade_service) = Some (CList posts3) ∧
  find_id "1" posts3 = Some (0, short_post "1" 100) ∧
  (∀ j r, posts3 !! j = Some r → r !! "id" = Some (VStr "1") → j = 0) ∧
  findById (destroyById cascade_service "posts" "1" None).2 "posts" "1"
    (Some (One "comments")) = Normal None ∧
  destroyById (destroyById cascade_service "posts" "1" None).2 "posts" "1"
    (Some (One "comments")) =
    (None, (destroyById cascade_service "posts" "1" None).2).
Proof.
  assert (H1 : get "posts" (db cascade_service) = Some (CList posts3))
    by reflexivity.
  assert (H2 : find_id "1" posts3 = Some (0, short_post "1" 100)) by reflexivity.
  assert (H3 : ∀ j r, posts3 !! j = Some r → r !! "id" = Some (VStr "1") → j = 0).
  { intros [|[|[|j]]] r Hj Hid; [reflexivity| | |discriminate Hj];
      injection Hj as <-; discriminate Hid. }
  split; [exact H1|]. split; [exact H2|]. split; [exact H3|].
  exact (destroyed_record_is_gone cascade_service "posts" "1" None
           (Some (One "comments")) (Some (One "comments")) posts3 0
           (short_post "1" 100) H1 H2 H3).
Defined.

Lemma destroyById_lengths_witness :
  ∃ s',
    destroyById cascade_service "posts" "1" (Some (One "comments")) =
      (Some (short_post "1" 100), s') ∧
    get "posts" (db cascade_service) = Some (CList posts3) ∧
    ∃ after, get "posts" (db s') = Some (CList after) ∧ length after = 2.
Proof.
  assert (H0 : get "posts" (db cascade_service) = Some (CList posts3))
    by reflexivity.
  assert (Hf : find_id "1" posts3 = Some (0, short_post "1" 100)) by reflexivity.
  pose proof (destroyById_found cascade_service "posts" "1"
                (Some (One "comments")) posts3 0 (short_post "1" 100) H0 Hf) as H1.
  eexists. split; [exact H1|]. split; [exact H0|].
  destruct (destroyById_lengths cascade_service "posts" "1"
              (Some (One "comments")) _ _ "posts" posts3 H1 H0)
    as (after & Hg & _ & Hlen).
  exists after. split; [exact Hg|]. rewrite Hlen; [reflexivity|].
  cbn [ensureArray]. intros Hin%list_elem_of_singleton. discriminate Hin.
Defined.

Lemma destroyById_spares_unrelated_witness :
  "comments" ≠ "posts" ∧
  get "comments" (db cascade_service) =
    Some (CList [comment1; comment2; orphan_comment]) ∧
  comment2 ∈ [comment1; comment2; orphan_comment] ∧
  comment2 !! foreignKey "posts" ≠ Some (VStr "1") ∧
  comment2 !! foreignKey "posts" ≠ Some VNull ∧
  ∃ others',
    get "comments"
      (db (destroyById cascade_service "posts" "1" (Some (One "comments"))).2) =
      Some (CList others') ∧
    comment2 ∈ others'.
Proof.
  assert (H1 : "comments" ≠ "posts") by discriminate.
  assert (H2 : get "comments" (db cascade_service) =
               Some (CList [comment1; comment2; orphan_comment])) by reflexivity.
  assert (H3 : comment2 ∈ [comment1; comment2; orphan_comment])
    by (apply list_elem_of_further, list_elem_of_here).
  assert (H4 : comment2 !! foreignKey "posts" ≠ Some (VStr "1")) by discriminate.
  assert (H5 : comment2 !! foreignKey "posts" ≠ Some VNull) by discriminate.
  split; [exact H1|]. split; [exact H2|]. split; [exact H3|].
  split; [exact H4|]. split; [exact H5|].
  exact (destroyById_spares_unrelated cascade_service "posts" "1"
           (Some (One "comments")) "comments" _ comment2 H1 H2 H3 H4 H5).
Defined.

Lemma single_records_are_kept_witness :
  get "object" (db cascade_service) = Some (CSingle obj) ∧
  get "object" (db (destroyById cascade_service "posts" "1"
                      (Some (Many ["comments"; "object"]))).2) =
    Some (CSingle obj).
Proof.
  assert (H1 : get "object" (db cascade_service) = Some (CSingle obj))
    by reflexivity.
  split; [exact H1|].
  exact (proj2 (proj2 (proj2
    (single_records_are_kept cascade_service "object" obj 0 "posts" "1"
       new_post update_body (Some (Many ["comments"; "object"])) H1)))).
Defined.

Lemma ids_are_always_defined_witness :
  ids_defined (db views_service) ∧
  ids_defined (db (create views_service "posts" new_post).2) ∧
  ids_defined (db (destroyById views_service "posts" "1" None).2).
Proof.
  destruct ids_are_always_defined as (Hnew & Hcreate & _ & Hdestroy).
  assert (H1 : ids_defined (db views_service)) by apply (Hnew views_store 0).
  split; [exact H1|]. split; [by apply Hcreate|by apply Hdestroy].
Defined.

Lemma isData_iff_all_lists_witness :
  isData (Some (store_json views_store)) = false ∧
  isData (Some (store_json [("posts", CList posts3)])) = true.
Proof.
  split.
  - destruct (isData (Some (store_json views_store))) eqn:E; [|reflexivity].
    pose proof (proj1 (isData_iff_all_lists views_store) E) as Hall.
    destruct (Hall "object" (CSingle obj) eq_refl) as [its Hits].
    discriminate Hits.
  - apply (proj2 (isData_iff_all_lists [("posts", CList posts3)])).
    intros name c Hg. cbn [get] in Hg.
    destruct (decide ("posts" = name)); [|discriminate Hg].
    injection Hg as <-. by eexists.
Defined.

Lemma failed_write_leaves_flag_up_witness :
  (adapter_write read_only_adapter 1%Z ()).1 = Throw ∧
  (observer_write (watching_observer read_only_adapter) 1%Z false ()).2.1 = true ∧
  reads_on_change
    (observer_read (watching_observer read_only_adapter)
       (observer_write (watching_observer read_only_adapter) 1%Z false ()).2.1
       ()).2.1 = false.
Proof.
  assert (H1 : (adapter_write read_only_adapter 1%Z ()).1 = Throw) by reflexivity.
  destruct (failed_write_leaves_flag_up read_only_adapter 1%Z false () ())
    as (Hflag & _ & Hwatch).
  split; [exact H1|]. split; [by rewrite Hflag|by apply Hwatch].
Defined.

End Evaluation.
